(** * jsonnetenc: the Jsonnet encoder of [marshal.go], embedded in Rocq

    The package renders a Go value tree as Jsonnet text.  Expression values
    ([Import], [Var], [Sum], ...) are smuggled through [encoding/json] as
    string literals wrapped in a marker pair, and a regexp pass splices the
    raw expression text back afterwards.

    Go strings and byte slices are sequences of bytes: they are modelled as
    [string] (a list of 8-bit [ascii]).  Runes are [N].  A Go result pair
    [([]byte, error)] is a pair [string * option error], the nil slice being
    the empty string.

    The file first models the parts of the Go standard library the package
    calls ([unicode/utf8], [strconv.Quote] behind the [%q] verb, [bytes],
    [strings], [regexp], [encoding/json]), then the package itself, then the
    properties.  Two things the package uses are left as parameters: the
    Unicode tables of [strconv.IsPrint] above Latin-1, and the formatter of
    go-jsonnet that [jsonnetFmt] calls. *)

From Stdlib Require Import String Ascii List NArith ZArith Lia Bool.
From Stdlib Require Import DecimalString.
Import ListNotations.

Set Warnings "-register-all".
Set Implicit Arguments.

Open Scope string_scope.

(** ** Bytes *)

Definition b2n (c : ascii) : N := N_of_ascii c.
Definition n2b (n : N) : ascii := ascii_of_N n.

Definition dquote : ascii := "034"%char.
Definition bslash : ascii := "092"%char.
Definition newline : ascii := "010"%char.

Definition str1 (c : ascii) : string := String c "".

(** The line feed, as a text. *)
Definition nl : string := str1 newline.

(** [lit] writes expected texts readably: an apostrophe stands for a
    double quote. *)
Fixpoint lit (s : string) : string :=
  match s with
  | "" => ""
  | String c t => String (if Ascii.eqb c "'"%char then dquote else c) (lit t)
  end.

Fixpoint rev_onto (s acc : string) : string :=
  match s with
  | "" => acc
  | String c t => rev_onto t (String c acc)
  end.

Definition srev (s : string) : string := rev_onto s "".

Fixpoint drop (n : nat) (s : string) : string :=
  match n, s with
  | O, _ => s
  | S k, "" => ""
  | S k, String _ t => drop k t
  end.

Fixpoint take (n : nat) (s : string) : string :=
  match n, s with
  | O, _ => ""
  | S k, "" => ""
  | S k, String c t => String c (take k t)
  end.

(** A decimal digit. *)
Definition is_digit (c : ascii) : bool :=
  ((48 <=? b2n c) && (b2n c <=? 57))%N.

(** ** [unicode/utf8] *)

Module utf8.

Definition RuneError : N := 0xFFFD.
Definition RuneSelf : N := 0x80.
Definition MaxRune : N := 0x10FFFF.

Definition cont (b : N) : bool := (0x80 <=? b)%N && (b <=? 0xBF)%N.

(** [utf8.DecodeRune] / [utf8.DecodeRuneInString]: the rune at the head
    of [s] and its width; [(RuneError, 1)] on a malformed sequence. *)
Definition DecodeRune (s : string) : N * nat :=
  match s with
  | "" => (RuneError, 0)
  | String c0 t =>
    let s0 := b2n c0 in
    if (s0 <? RuneSelf)%N then (s0, 1)
    else if (s0 <? 0xC2)%N || (0xF4 <? s0)%N then (RuneError, 1)
    else
      let sz := if (s0 <? 0xE0)%N then 2 else if (s0 <? 0xF0)%N then 3 else 4 in
      let lo := if (s0 =? 0xE0)%N then 0xA0%N
                else if (s0 =? 0xF0)%N then 0x90%N else 0x80%N in
      let hi := if (s0 =? 0xED)%N then 0x9F%N
                else if (s0 =? 0xF4)%N then 0x8F%N else 0xBF%N in
      if (String.length s <? sz)%nat then (RuneError, 1)
      else
        match t with
        | String c1 t1 =>
          let s1 := b2n c1 in
          if (s1 <? lo)%N || (hi <? s1)%N then (RuneError, 1)
          else if (sz <=? 2)%nat
          then (N.lor (N.shiftl (N.land s0 0x1F) 6) (N.land s1 0x3F), 2)
          else
            match t1 with
            | String c2 t2 =>
              let s2 := b2n c2 in
              if negb (cont s2) then (RuneError, 1)
              else if (sz <=? 3)%nat
              then (N.lor (N.shiftl (N.land s0 0x0F) 12)
                      (N.lor (N.shiftl (N.land s1 0x3F) 6) (N.land s2 0x3F)), 3)
              else
                match t2 with
                | String c3 _ =>
                  let s3 := b2n c3 in
                  if negb (cont s3) then (RuneError, 1)
                  else (N.lor (N.shiftl (N.land s0 0x07) 18)
                          (N.lor (N.shiftl (N.land s1 0x3F) 12)
                             (N.lor (N.shiftl (N.land s2 0x3F) 6)
                                (N.land s3 0x3F))), 4)
                | "" => (RuneError, 1)
                end
            | "" => (RuneError, 1)
            end
        | "" => (RuneError, 1)
        end
  end.

(** [utf8.RuneStart]: not a continuation byte. *)
Definition RuneStart (b : ascii) : bool :=
  negb (N.land (b2n b) 0xC0 =? 0x80)%N.

(** [utf8.DecodeLastRune], on the reversed text [r] (last byte first). *)
Definition DecodeLastRune (r : string) : N * nat :=
  match r with
  | "" => (RuneError, 0)
  | String c t =>
    if (b2n c <? RuneSelf)%N then (b2n c, 1)
    else
      let try_at (k : nat) :=
        let '(rn, size) := DecodeRune (srev (take (S k) r)) in
        if (size =? S k)%nat then (rn, size) else (RuneError, 1) in
      match t with
      | String c1 t1 =>
        if RuneStart c1 then try_at 1
        else match t1 with
             | String c2 t2 =>
               if RuneStart c2 then try_at 2
               else match t2 with
                    | String c3 _ =>
                      if RuneStart c3 then try_at 3 else (RuneError, 1)
                    | "" => (RuneError, 1)
                    end
             | "" => (RuneError, 1)
             end
      | "" => (RuneError, 1)
      end
  end.

(** [utf8.EncodeRune] / [utf8.AppendRune]. *)
Definition EncodeRune (r : N) : string :=
  let b (n : N) := n2b n in
  if (r <=? 0x7F)%N then str1 (b r)
  else if (r <=? 0x7FF)%N then
    String (b (N.lor 0xC0 (N.shiftr r 6)))
      (str1 (b (N.lor 0x80 (N.land r 0x3F))))
  else if (MaxRune <? r)%N || ((0xD800 <=? r)%N && (r <=? 0xDFFF)%N) then
    String (b 0xEF%N) (String (b 0xBF%N) (str1 (b 0xBD%N)))
  else if (r <=? 0xFFFF)%N then
    String (b (N.lor 0xE0 (N.shiftr r 12)))
      (String (b (N.lor 0x80 (N.land (N.shiftr r 6) 0x3F)))
         (str1 (b (N.lor 0x80 (N.land r 0x3F)))))
  else
    String (b (N.lor 0xF0 (N.shiftr r 18)))
      (String (b (N.lor 0x80 (N.land (N.shiftr r 12) 0x3F)))
         (String (b (N.lor 0x80 (N.land (N.shiftr r 6) 0x3F)))
            (str1 (b (N.lor 0x80 (N.land r 0x3F)))))).

(** [utf8.ValidRune]. *)
Definition ValidRune (r : N) : bool :=
  ((r <? 0xD800)%N || (0xDFFF <? r)%N) && (r <=? MaxRune)%N.

End utf8.

(** ** [unicode], [bytes], [strings] *)

(** [unicode.IsSpace]: the White_Space property. *)
Definition unicode_IsSpace (r : N) : bool :=
  ((0x09 <=? r)%N && (r <=? 0x0D)%N) || (r =? 0x20)%N
  || (r =? 0x85)%N || (r =? 0xA0)%N || (r =? 0x1680)%N
  || ((0x2000 <=? r)%N && (r <=? 0x200A)%N)
  || (r =? 0x2028)%N || (r =? 0x2029)%N || (r =? 0x202F)%N
  || (r =? 0x205F)%N || (r =? 0x3000)%N.

(** Drop leading runes that satisfy [unicode.IsSpace].  [skip] counts the
    remaining bytes of a rune already found to be a space. *)
Fixpoint trim_left (s : string) (skip : nat) : string :=
  match s with
  | "" => ""
  | String c t =>
    match skip with
    | S k => trim_left t k
    | O =>
      let '(r, width) := utf8.DecodeRune s in
      if unicode_IsSpace r then trim_left t (width - 1) else s
    end
  end.

(** The same from the end, on the reversed text, with
    [utf8.DecodeLastRune]. *)
Fixpoint trim_left_rev (r : string) (skip : nat) : string :=
  match r with
  | "" => ""
  | String c t =>
    match skip with
    | S k => trim_left_rev t k
    | O =>
      let '(rn, width) := utf8.DecodeLastRune r in
      if unicode_IsSpace rn then trim_left_rev t (width - 1) else r
    end
  end.

(** [bytes.TrimSpace]: its ASCII fast path and its fall-back
    [TrimFunc(s, unicode.IsSpace)] remove the same bytes, the leading and
    trailing runs of white-space runes. *)
Definition TrimSpace (s : string) : string :=
  srev (trim_left_rev (srev (trim_left s 0)) 0).

(** [strings.HasPrefix], [strings.TrimPrefix], [strings.TrimSuffix]. *)
Fixpoint starts_with (p s : string) : bool :=
  match p with
  | "" => true
  | String a p' =>
    match s with
    | "" => false
    | String b s' => Ascii.eqb a b && starts_with p' s'
    end
  end.

Definition HasPrefix (s p : string) : bool := starts_with p s.

Definition TrimPrefix (s p : string) : string :=
  if HasPrefix s p then drop (String.length p) s else s.

Definition HasSuffix (s p : string) : bool := starts_with (srev p) (srev s).

Definition TrimSuffix (s p : string) : string :=
  if HasSuffix s p then take (String.length s - String.length p) s else s.

(** [bytes.Join]. *)
Fixpoint Join (l : list string) (sep : string) : string :=
  match l with
  | [] => ""
  | [x] => x
  | x :: rest => x ++ sep ++ Join rest sep
  end.

(** ** [strconv.Quote], the [%q] verb of [fmt] *)

Module strconv.

Definition lowerhex (n : N) : ascii :=
  if (n <? 10)%N then n2b (48 + n)%N else n2b (87 + n)%N.

Definition hex2 (n : N) : string :=
  String (lowerhex (N.shiftr n 4)) (str1 (lowerhex (N.land n 0xF))).

Definition hex4 (n : N) : string :=
  String (lowerhex (N.land (N.shiftr n 12) 0xF))
    (String (lowerhex (N.land (N.shiftr n 8) 0xF))
       (hex2 (N.land n 0xFF))).

Definition hex8 (n : N) : string :=
  hex4 (N.land (N.shiftr n 16) 0xFFFF) ++ hex4 (N.land n 0xFFFF).

Section Quote.

(** [strconv.IsPrint] above Latin-1 is a search in generated Unicode
    tables that are not part of the package: it is a parameter. *)
Variable isPrintTable : N -> bool.

Definition IsPrint (r : N) : bool :=
  if (r <=? 0xFF)%N then
    if (0x20 <=? r)%N && (r <=? 0x7E)%N then true
    else if (0xA1 <=? r)%N && (r <=? 0xFF)%N then negb (r =? 0xAD)%N
    else false
  else isPrintTable r.

(** [appendEscapedRune] with a double quote as [quote], [ASCIIonly = false],
    [graphicOnly = false]. *)
Definition appendEscapedRune (r : N) : string :=
  if (r =? b2n dquote)%N || (r =? b2n bslash)%N then
    String bslash (str1 (n2b r))
  else if IsPrint r then utf8.EncodeRune r
  else if (r =? 7)%N then String bslash "a"
  else if (r =? 8)%N then String bslash "b"
  else if (r =? 12)%N then String bslash "f"
  else if (r =? 10)%N then String bslash "n"
  else if (r =? 13)%N then String bslash "r"
  else if (r =? 9)%N then String bslash "t"
  else if (r =? 11)%N then String bslash "v"
  else if (r <? 0x20)%N || (r =? 0x7F)%N then
    String bslash ("x" ++ hex2 r)
  else if negb (utf8.ValidRune r) then
    String bslash ("u" ++ hex4 utf8.RuneError)
  else if (r <? 0x10000)%N then String bslash ("u" ++ hex4 r)
  else String bslash ("U" ++ hex8 r).

(** The loop of [appendQuotedWith]; [skip] counts the bytes of the
    current rune still to be passed over. *)
Fixpoint quote_loop (s : string) (skip : nat) : string :=
  match s with
  | "" => ""
  | String c t =>
    match skip with
    | S k => quote_loop t k
    | O =>
      let '(r, width) :=
        if (b2n c <? utf8.RuneSelf)%N then (b2n c, 1)
        else utf8.DecodeRune s in
      (if (width =? 1)%nat && (r =? utf8.RuneError)%N
       then String bslash ("x" ++ hex2 (b2n c))
       else appendEscapedRune r)
      ++ quote_loop t (width - 1)
    end
  end.

Definition Quote (s : string) : string :=
  String dquote (quote_loop s 0 ++ str1 dquote).

End Quote.

End strconv.

(** ** Errors *)

(** The error values that reach the package. *)
Inductive error : Type :=
| SyntaxError (msg : string)              (* *json.SyntaxError *)
| MarshalerError (typ : string) (e : error) (* *json.MarshalerError *)
| MultiError (errs : list error)          (* multierror.Error *)
| FormatError (msg : string).             (* an error of the formatter *)

(** A Go result pair [([]byte, error)]. *)
Definition ret : Type := string * option error.

Definition ok (b : string) : ret := (b, None).
Definition fail (e : error) : ret := ("", Some e).

(** [multierror.Append(err, e)] with one appended error: a nil [e] leaves
    [err] as it is, a nil [err] gives [e], otherwise the errors are
    collected. *)
Definition multierror_Append (err e : option error) : option error :=
  match err, e with
  | _, None => err
  | None, Some _ => e
  | Some (MultiError l), Some e' => Some (MultiError (l ++ [e']))
  | Some c, Some e' => Some (MultiError [c; e'])
  end.

(** ** [regexp] *)

Module regexp.

(** The fragment of RE2 syntax the package's three patterns use.
    Repetition is only ever applied to a one-byte class ([.] or a
    bracket expression).  Matching is on bytes; the literals that follow
    a repetition in these patterns are ASCII, so a match never ends
    inside a multi-byte rune and the byte-wise and rune-wise readings
    agree. *)
Inductive regex : Type :=
| Empty
| Lit (c : ascii)
| OneOf (p : ascii -> bool)
| Star (p : ascii -> bool) (greedy : bool)
| Cat (r1 r2 : regex)
| Capture (r : regex)
| BeginText
| EndText.

Fixpoint Lits (s : string) : regex :=
  match s with
  | "" => Empty
  | String c t => Cat (Lit c) (Lits t)
  end.

(** [.] without the [s] flag. *)
Definition AnyCharNotNL (c : ascii) : bool := negb (Ascii.eqb c newline).

Section Backtrack.

Variable R : Type.

Definition orelse (a b : option R) : option R :=
  match a with Some _ => a | None => b end.

(** Repetition of a class, preferring more (greedy) or fewer (lazy)
    iterations first. *)
Fixpoint star (p : ascii -> bool) (greedy : bool) (s : string) (pos : nat)
         (k : string -> nat -> option R) : option R :=
  match s with
  | "" => k "" pos
  | String c t =>
    if p c then
      if greedy then orelse (star p greedy t (S pos) k) (k s pos)
      else orelse (k s pos) (star p greedy t (S pos) k)
    else k s pos
  end.

(** Leftmost-first (backtracking) matching of [r] at the head of [s],
    which starts at offset [pos] of the text; [cap] is group 1. *)
Fixpoint rmatch (r : regex) (s : string) (pos : nat) (cap : option string)
         (k : string -> nat -> option string -> option R) : option R :=
  match r with
  | Empty => k s pos cap
  | Lit c =>
    match s with
    | String d t => if Ascii.eqb c d then k t (S pos) cap else None
    | "" => None
    end
  | OneOf p =>
    match s with
    | String d t => if p d then k t (S pos) cap else None
    | "" => None
    end
  | Star p greedy => star p greedy s pos (fun s' pos' => k s' pos' cap)
  | Cat r1 r2 =>
    rmatch r1 s pos cap (fun s' pos' cap' => rmatch r2 s' pos' cap' k)
  | Capture r1 =>
    rmatch r1 s pos cap
      (fun s' pos' _ => k s' pos' (Some (take (pos' - pos) s)))
  | BeginText => if (pos =? 0)%nat then k s pos cap else None
  | EndText => match s with "" => k s pos cap | _ => None end
  end.

End Backtrack.

(** The match of [r] that starts exactly at the head of [s]: its length
    and group 1. *)
Definition match_at (r : regex) (s : string) (pos : nat)
  : option (nat * option string) :=
  rmatch r s pos None (fun _ pos' cap => Some (pos' - pos, cap)).

(** [Regexp.MatchString]: is there a match starting anywhere. *)
Fixpoint search (r : regex) (s : string) (pos : nat) : bool :=
  match match_at r s pos with
  | Some _ => true
  | None =>
    match s with
    | "" => false
    | String _ t => search r t (S pos)
    end
  end.

Definition MatchString (r : regex) (s : string) : bool := search r s 0.

(** [Regexp.ReplaceAllFunc]: the successive non-overlapping leftmost
    matches are replaced by what [repl] returns.  [repl] is a closure in
    the source; the variable it updates is threaded as [st].  [skip]
    counts the bytes of the current match still to be passed over.  The
    patterns used with it start with a literal quote and never match the
    empty text, so Go's rule for empty matches is left out. *)
Fixpoint replace_loop (St : Type) (r : regex)
         (repl : St -> string -> option string -> string * St)
         (s : string) (pos skip : nat) (st : St) : string * St :=
  match s with
  | "" => ("", st)
  | String c t =>
    match skip with
    | S k => replace_loop r repl t (S pos) k st
    | O =>
      match match_at r s pos with
      | Some (S len, cap) =>
        let '(out, st1) := repl st (take (S len) s) cap in
        let '(rest, st2) := replace_loop r repl t (S pos) len st1 in
        (out ++ rest, st2)
      | _ =>
        let '(rest, st1) := replace_loop r repl t (S pos) 0 st in
        (String c rest, st1)
      end
    end
  end.

Definition ReplaceAllFunc (St : Type) (r : regex) (src : string)
           (repl : St -> string -> option string -> string * St) (st : St)
  : string * St :=
  replace_loop r repl src 0 0 st.

(** [Regexp.ReplaceAll] with the template [$1:], which expands to
    group 1 followed by a colon. *)
Definition expand_group1_colon (_ : unit) (_ : string) (cap : option string)
  : string * unit :=
  (match cap with Some g => g | None => "" end ++ ":", tt).

Definition ReplaceAll_group1_colon (r : regex) (src : string) : string :=
  fst (ReplaceAllFunc r src expand_group1_colon tt).

End regexp.

(** ** [encoding/json] *)

Module json.

Definition isSpace (c : ascii) : bool :=
  Ascii.eqb c " "%char || Ascii.eqb c "009"%char
  || Ascii.eqb c "013"%char || Ascii.eqb c newline.

Definition ishex (c : ascii) : bool :=
  let n := b2n c in
  ((48 <=? n) && (n <=? 57) || (97 <=? n) && (n <=? 102)
   || (65 <=? n) && (n <=? 70))%N.

(** The states of the scanner inside and after a string literal. *)
Inductive sstate : Type :=
| InString
| InStringEsc
| InStringEscU (remaining : nat)
| EndTop.

Definition simple_escape (c : ascii) : bool :=
  Ascii.eqb c "b"%char || Ascii.eqb c "f"%char || Ascii.eqb c "n"%char
  || Ascii.eqb c "r"%char || Ascii.eqb c "t"%char || Ascii.eqb c bslash
  || Ascii.eqb c "/"%char || Ascii.eqb c dquote.

Fixpoint scan_string (s : string) (st : sstate) : option error :=
  match s with
  | "" =>
    match st with
    | EndTop => None
    | _ => Some (SyntaxError "unexpected end of JSON input")
    end
  | String c t =>
    match st with
    | InString =>
      if Ascii.eqb c dquote then scan_string t EndTop
      else if Ascii.eqb c bslash then scan_string t InStringEsc
      else if (b2n c <? 0x20)%N
      then Some (SyntaxError "invalid character in string literal")
      else scan_string t InString
    | InStringEsc =>
      if simple_escape c then scan_string t InString
      else if Ascii.eqb c "u"%char then scan_string t (InStringEscU 4)
      else Some (SyntaxError "invalid character in string escape code")
    | InStringEscU n =>
      if ishex c then
        scan_string t (match n with
                       | S (S k) => InStringEscU (S k)
                       | _ => InString
                       end)
      else Some (SyntaxError
                   "invalid character in \u hexadecimal character escape")
    | EndTop =>
      if isSpace c then scan_string t EndTop
      else Some (SyntaxError "invalid character after top-level value")
    end
  end.

(** [checkValid] on the two forms of text the package hands to it: a
    string literal (what [wrap] returns and what [exprRegexp] matches) and
    the literal [null] (what a nil [Sum] returns).  Other JSON texts do
    not occur and are reported as a syntax error. *)
Definition checkValid (data : string) : option error :=
  match data with
  | "" => Some (SyntaxError "unexpected end of JSON input")
  | String c t =>
    if Ascii.eqb c dquote then scan_string t InString
    else if String.eqb data "null" then None
    else Some (SyntaxError "invalid character looking for beginning of value")
  end.

Definition html_unsafe (c : ascii) : bool :=
  Ascii.eqb c "<"%char || Ascii.eqb c ">"%char || Ascii.eqb c "&"%char.

Definition u00 (c : ascii) : string :=
  String bslash ("u00" ++ strconv.hex2 (b2n c)).

(** Is [s] the UTF-8 encoding of U+2028 or U+2029 followed by anything:
    the low four bits of the last byte if so. *)
Definition line_sep (s : string) : option N :=
  match s with
  | String c0 t =>
    if (b2n c0 =? 0xE2)%N then
      match t with
      | String c1 (String c2 _) =>
        if ((b2n c1 =? 0x80) && ((b2n c2 =? 0xA8) || (b2n c2 =? 0xA9)))%N
        then Some (N.land (b2n c2) 0xF)
        else None
      | _ => None
      end
    else None
  | "" => None
  end.

Definition u202 (n : N) : string :=
  String bslash ("u202" ++ str1 (strconv.lowerhex n)).

(** The copy loop of [compact] with [escape = true] over a valid string
    literal, after its opening quote: [<], [>], [&], U+2028 and U+2029
    are escaped, and the white space the scanner skips after the closing
    quote is dropped.  [esc] says that the previous byte was an unescaped
    backslash. *)
Fixpoint compact_loop (s : string) (esc : bool) (skip : nat) : string :=
  match s with
  | "" => ""
  | String c t =>
    match skip with
    | S k => compact_loop t false k
    | O =>
      if html_unsafe c then u00 c ++ compact_loop t false 0
      else
        match line_sep s with
        | Some n => u202 n ++ compact_loop t false 2
        | None =>
          if esc then String c (compact_loop t false 0)
          else if Ascii.eqb c dquote then str1 dquote
          else String c (compact_loop t (Ascii.eqb c bslash) 0)
        end
    end
  end.

(** [compact(dst, src, true)], as the encoder applies it to what a
    [MarshalJSON] method returned. *)
Definition compact (src : string) : ret :=
  match checkValid src with
  | Some e => fail e
  | None =>
    match src with
    | String c t =>
      if Ascii.eqb c dquote then ok (String c (compact_loop t false 0))
      else ok src
    | "" => ok src
    end
  end.

Definition hexval (c : ascii) : option N :=
  let n := b2n c in
  if ((48 <=? n) && (n <=? 57))%N then Some (n - 48)%N
  else if ((97 <=? n) && (n <=? 102))%N then Some (n - 87)%N
  else if ((65 <=? n) && (n <=? 70))%N then Some (n - 55)%N
  else None.

(** [getu4]: the value of a [\uXXXX] escape at the head of [s]. *)
Definition getu4 (s : string) : option N :=
  match s with
  | String b (String u (String h3 (String h2 (String h1 (String h0 _))))) =>
    if Ascii.eqb b bslash && Ascii.eqb u "u"%char then
      match hexval h3, hexval h2, hexval h1, hexval h0 with
      | Some a, Some b', Some c, Some d =>
        Some (a * 4096 + b' * 256 + c * 16 + d)%N
      | _, _, _, _ => None
      end
    else None
  | _ => None
  end.

Definition IsSurrogate (r : N) : bool := ((0xD800 <=? r) && (r <? 0xE000))%N.

(** [utf16.DecodeRune]. *)
Definition utf16_DecodeRune (r1 r2 : N) : N :=
  if ((0xD800 <=? r1) && (r1 <? 0xDC00) && (0xDC00 <=? r2) && (r2 <? 0xE000))%N
  then (N.lor (N.shiftl (r1 - 0xD800) 10) (r2 - 0xDC00) + 0x10000)%N
  else utf8.RuneError.

Definition prepend (a : string) (r : option string) : option string :=
  match r with Some b => Some (a ++ b) | None => None end.

(** The decoding loop of [unquoteBytes] over the text after the opening
    quote, up to the closing quote. *)
Fixpoint unquote_loop (s : string) (skip : nat) : option string :=
  match s with
  | "" => None
  | String c t =>
    match skip with
    | S k => unquote_loop t k
    | O =>
      if Ascii.eqb c dquote then Some ""
      else if Ascii.eqb c bslash then
        match t with
        | "" => None
        | String e _ =>
          if Ascii.eqb e dquote || Ascii.eqb e bslash || Ascii.eqb e "/"%char
             || Ascii.eqb e "'"%char
          then prepend (str1 e) (unquote_loop t 1)
          else if Ascii.eqb e "b"%char then prepend (str1 "008"%char) (unquote_loop t 1)
          else if Ascii.eqb e "f"%char then prepend (str1 "012"%char) (unquote_loop t 1)
          else if Ascii.eqb e "n"%char then prepend (str1 "010"%char) (unquote_loop t 1)
          else if Ascii.eqb e "r"%char then prepend (str1 "013"%char) (unquote_loop t 1)
          else if Ascii.eqb e "t"%char then prepend (str1 "009"%char) (unquote_loop t 1)
          else if Ascii.eqb e "u"%char then
            match getu4 s with
            | None => None
            | Some rr =>
              if IsSurrogate rr then
                let dec :=
                  match getu4 (drop 6 s) with
                  | Some rr1 => utf16_DecodeRune rr rr1
                  | None => utf8.RuneError
                  end in
                if negb (dec =? utf8.RuneError)%N
                then prepend (utf8.EncodeRune dec) (unquote_loop t 11)
                else prepend (utf8.EncodeRune utf8.RuneError) (unquote_loop t 5)
              else prepend (utf8.EncodeRune rr) (unquote_loop t 5)
            end
          else None
        end
      else if (b2n c <? 0x20)%N then None
      else if (b2n c <? utf8.RuneSelf)%N then prepend (str1 c) (unquote_loop t 0)
      else
        let '(rr, size) := utf8.DecodeRune s in
        prepend (utf8.EncodeRune rr) (unquote_loop t (size - 1))
    end
  end.

(** [json.Unmarshal(data, &s)] for a string variable [s]. *)
Definition Unmarshal (data : string) : ret :=
  match checkValid data with
  | Some e => fail e
  | None =>
    match data with
    | String c t =>
      if Ascii.eqb c dquote then
        match unquote_loop t 0 with
        | Some s => ok s
        | None => fail (SyntaxError "invalid string literal")
        end
      else ok ""
    | "" => ok ""
    end
  end.

(** [htmlSafeSet]: the ASCII bytes the encoder copies unescaped. *)
Definition htmlSafe (c : ascii) : bool :=
  (0x20 <=? b2n c)%N && negb (Ascii.eqb c dquote) && negb (Ascii.eqb c bslash)
  && negb (html_unsafe c).

(** [encodeState.string] with [escapeHTML = true] (Go 1.19, the
    version of [go.mod]), without the enclosing quotes.  [skip] counts
    the bytes of the current rune still to be passed over, copied when
    [keep] is set. *)
Fixpoint string_loop (s : string) (skip : nat) (keep : bool) : string :=
  match s with
  | "" => ""
  | String c t =>
    match skip with
    | S k =>
      if keep then String c (string_loop t k keep) else string_loop t k keep
    | O =>
      if (b2n c <? utf8.RuneSelf)%N then
        if htmlSafe c then String c (string_loop t 0 true)
        else
          (if Ascii.eqb c bslash || Ascii.eqb c dquote then String bslash (str1 c)
           else if Ascii.eqb c newline then String bslash "n"
           else if Ascii.eqb c "013"%char then String bslash "r"
           else if Ascii.eqb c "009"%char then String bslash "t"
           else u00 c)
          ++ string_loop t 0 true
      else
        let '(r, size) := utf8.DecodeRune s in
        if (r =? utf8.RuneError)%N && (size =? 1)%nat
        then String bslash "ufffd" ++ string_loop t 0 true
        else if (r =? 0x2028)%N || (r =? 0x2029)%N
        then u202 (N.land r 0xF) ++ string_loop t (size - 1) false
        else String c (string_loop t (size - 1) true)
    end
  end.

Definition encode_string (s : string) : string :=
  String dquote (string_loop s 0 true ++ str1 dquote).

End json.

(** ** The package [jsonnetenc] *)

Definition jsonnetEscapeOpen : string := "%%%jsonnet ".
Definition jsonnetEscapeClose : string := " tennojs%%%".

Import regexp.

(** [exprRegexp]: a quote, the flag U, the open marker, a captured
    repetition of [.], the close marker, a quote.  Under the flag U the
    repetition is lazy. *)
Definition exprRegexp : regex :=
  Cat (Lit dquote)
    (Cat (Lits jsonnetEscapeOpen)
       (Cat (Capture (Star AnyCharNotNL false))
          (Cat (Lits jsonnetEscapeClose) (Lit dquote)))).

(** [superHack]: a quote, the flag U, a group capturing a lazy
    repetition of [.] and a plus sign, a quote, a colon. *)
Definition superHack : regex :=
  Cat (Lit dquote)
    (Cat (Capture (Cat (Star AnyCharNotNL false) (Lit "+"%char)))
       (Cat (Lit dquote) (Lit ":"%char))).

Definition id_start (c : ascii) : bool :=
  let n := b2n c in
  (Ascii.eqb c "_"%char || (97 <=? n) && (n <=? 122) || (65 <=? n) && (n <=? 90))%N.

Definition id_char (c : ascii) : bool :=
  let n := b2n c in
  (Ascii.eqb c "_"%char || (97 <=? n) && (n <=? 122) || (65 <=? n) && (n <=? 90)
   || (48 <=? n) && (n <=? 57))%N.

(** [idRegexp]: start of text, one of [_a-zA-Z], a greedy repetition of
    [_a-zA-Z0-9], end of text. *)
Definition idRegexp : regex :=
  Cat BeginText (Cat (OneOf id_start) (Cat (Star id_char true) EndText)).

(** [reservedIdentifiers], a [map[string]bool], as its list of entries. *)
Definition reservedIdentifiers : list (string * bool) :=
  [ ("assert", true); ("else", true); ("error", true); ("false", true);
    ("for", true); ("function", true); ("if", true); ("import", true);
    ("importstr", true); ("importbin", true); ("in", true); ("local", true);
    ("null", true); ("tailstrict", true); ("then", true); ("self", true);
    ("super", true); ("true", true) ].

(** The two-valued map index [_, ok := m[k]]. *)
Fixpoint map_lookup (m : list (string * bool)) (k : string) : bool * bool :=
  match m with
  | [] => (false, false)
  | (k', v) :: rest => if String.eqb k' k then (v, true) else map_lookup rest k
  end.

Definition requiresEscaping (s : string) : bool :=
  let '(_, reserved) := map_lookup reservedIdentifiers s in
  if reserved then true
  else negb (MatchString idRegexp s).

(** The value trees handed to [Marshal].  Of Go's values the literal part
    keeps nil, booleans, integers, strings, non-nil slices and structs or
    maps (the fields in the order the encoder emits them); the rest are the
    package's expression types.  A [Sum] is a slice and can be nil. *)
Inductive value : Type :=
| GoNil
| GoBool (b : bool)
| GoInt (n : Z)
| GoString (s : string)
| GoSlice (elems : list value)
| GoStruct (fields : list (string * value))
| Import (s : string)
| ImportStr (s : string)
| ImportBin (s : string)
| Self (s : string)
| Super (s : string)
| Var (s : string)
| Sum (s : option (list value))
| Index (LHS RHS : value)
| Member (LHS : value) (Field : string).

Definition unwrap_func (err : option error) (i : string) (_ : option string)
  : string * option error :=
  let '(s, e) := json.Unmarshal i in
  let err := multierror_Append err e in
  let s := TrimPrefix s jsonnetEscapeOpen in
  let s := TrimSuffix s jsonnetEscapeClose in
  (s, err).

Definition unwrap (b : string) : ret :=
  let '(r, err) := ReplaceAllFunc exprRegexp b unwrap_func None in
  match err with
  | Some e => fail e
  | None => ok r
  end.

(** [indent d]: the line break the encoder inserts at depth [d] with
    [SetIndent] of an empty prefix and four spaces. *)
Fixpoint spaces (d : nat) : string :=
  match d with
  | O => ""
  | S k => "    " ++ spaces k
  end.

Definition indent (d : nat) : string := String newline (spaces d).

Definition itoa (n : Z) : string := NilEmpty.string_of_int (Z.to_int n).

Section Package.

(** The Unicode tables behind [%q] and the formatter of go-jsonnet are
    outside the package. *)
Variable isPrintTable : N -> bool.
Variable formatter_Format : string -> string -> string * option error.

Definition wrap (s : string) : string :=
  strconv.Quote isPrintTable (jsonnetEscapeOpen ++ s ++ jsonnetEscapeClose).

Definition quoted (s : string) : string := strconv.Quote isPrintTable s.

Section Marshalers.

(** The [MarshalJSON] methods call [marshal], which calls the encoder,
    which calls the methods: they are written over [marshal] and the
    knot is tied in [encode] below. *)
Variable marshal : value -> ret.

Definition Import_MarshalJSON (s : string) : ret :=
  ok (wrap ("(import " ++ quoted s ++ ")")).

Definition ImportStr_MarshalJSON (s : string) : ret :=
  ok (wrap ("(importstr " ++ quoted s ++ ")")).

Definition ImportBin_MarshalJSON (s : string) : ret :=
  ok (wrap ("(importbin " ++ quoted s ++ ")")).

Definition Self_MarshalJSON (s : string) : ret :=
  ok (wrap ("self[" ++ quoted s ++ "]")).

Definition Super_MarshalJSON (s : string) : ret :=
  if negb (requiresEscaping s) then ok (wrap ("super." ++ s))
  else ok (wrap ("super[" ++ quoted s ++ "]")).

Definition Var_MarshalJSON (s : string) : ret := ok (wrap s).

(** The loop of [Sum.MarshalJSON] over the elements, [l] being the
    fragments collected so far. *)
Fixpoint Sum_loop (s : list value) (l : list string)
  : list string * option error :=
  match s with
  | [] => (l, None)
  | e :: rest =>
    let '(b, err) := marshal e in
    match err with
    | Some x => ([], Some x)
    | None => Sum_loop rest (l ++ [TrimSpace b])
    end
  end.

Definition Sum_MarshalJSON (s : option (list value)) : ret :=
  match s with
  | None => ok "null"
  | Some elems =>
    let '(l, err) := Sum_loop elems [] in
    match err with
    | Some x => fail x
    | None => ok (wrap (Join l "+"))
    end
  end.

Definition Index_MarshalJSON (LHS RHS : value) : ret :=
  let '(l, err) := marshal LHS in
  match err with
  | Some x => fail x
  | None =>
    let '(r, err) := marshal RHS in
    match err with
    | Some x => fail x
    | None => ok (wrap (TrimSpace l ++ "[" ++ TrimSpace r ++ "]"))
    end
  end.

Definition Member_MarshalJSON (LHS : value) (Field : string) : ret :=
  let '(l, err) := marshal LHS in
  match err with
  | Some x => fail x
  | None => ok (wrap (TrimSpace l ++ "[" ++ quoted Field ++ "]"))
  end.

End Marshalers.

(** What the encoder does with a value that implements
    [json.Marshaler]: call the method and copy its result through
    [compact], any failure becoming a [MarshalerError]. *)
Definition marshalerEncoder (typ : string) (r : ret) : ret :=
  let '(b, err) := r in
  match err with
  | Some e => fail (MarshalerError typ e)
  | None =>
    let '(c, err) := json.compact b in
    match err with
    | Some e => fail (MarshalerError typ e)
    | None => ok c
    end
  end.

(** [marshal] over an encoder [enc]: [Encode] writes the encoding and a
    newline into the buffer, [unwrap] reads the buffer. *)
Definition marshal_with (enc : value -> nat -> ret) (v : value) : ret :=
  let '(buf, err) := enc v 0 in
  match err with
  | Some e => fail e
  | None => unwrap (buf ++ str1 newline)
  end.

(** The encoder of [encoding/json] with [SetIndent] of four spaces, at
    nesting depth [d]. *)
Fixpoint encode (v : value) (d : nat) : ret :=
  match v with
  | GoNil => ok "null"
  | GoBool b => ok (if b then "true" else "false")
  | GoInt n => ok (itoa n)
  | GoString s => ok (json.encode_string s)
  | GoSlice elems =>
    match elems with
    | [] => ok "[]"
    | _ =>
      let fix items (l : list value) : list string * option error :=
        match l with
        | [] => ([], None)
        | x :: rest =>
          let '(b, err) := encode x (S d) in
          match err with
          | Some e => ([], Some e)
          | None =>
            let '(bs, err) := items rest in
            match err with
            | Some e => ([], Some e)
            | None => (b :: bs, None)
            end
          end
        end in
      let '(bs, err) := items elems in
      match err with
      | Some e => fail e
      | None =>
        ok ("[" ++ indent (S d) ++ Join bs ("," ++ indent (S d))
              ++ indent d ++ "]")
      end
    end
  | GoStruct fields =>
    match fields with
    | [] => ok "{}"
    | _ =>
      let fix members (l : list (string * value))
        : list string * option error :=
        match l with
        | [] => ([], None)
        | (k, x) :: rest =>
          let '(b, err) := encode x (S d) in
          match err with
          | Some e => ([], Some e)
          | None =>
            let '(bs, err) := members rest in
            match err with
            | Some e => ([], Some e)
            | None => ((json.encode_string k ++ ": " ++ b) :: bs, None)
            end
          end
        end in
      let '(bs, err) := members fields in
      match err with
      | Some e => fail e
      | None =>
        ok ("{" ++ indent (S d) ++ Join bs ("," ++ indent (S d))
              ++ indent d ++ "}")
      end
    end
  | Import s => marshalerEncoder "Import" (Import_MarshalJSON s)
  | ImportStr s => marshalerEncoder "ImportStr" (ImportStr_MarshalJSON s)
  | ImportBin s => marshalerEncoder "ImportBin" (ImportBin_MarshalJSON s)
  | Self s => marshalerEncoder "Self" (Self_MarshalJSON s)
  | Super s => marshalerEncoder "Super" (Super_MarshalJSON s)
  | Var s => marshalerEncoder "Var" (Var_MarshalJSON s)
  | Sum s =>
    marshalerEncoder "Sum" (Sum_MarshalJSON (marshal_with encode) s)
  | Index l r =>
    marshalerEncoder "Index" (Index_MarshalJSON (marshal_with encode) l r)
  | Member l f =>
    marshalerEncoder "Member" (Member_MarshalJSON (marshal_with encode) l f)
  end.

Definition marshal (v : value) : ret := marshal_with encode v.

Definition jsonnetFmt (b : string) : ret :=
  let '(s, err) := formatter_Format "" b in
  (s, err).

Definition Marshal (v : value) : ret :=
  let '(b, err) := marshal v in
  match err with
  | Some e => fail e
  | None =>
    let b := ReplaceAll_group1_colon superHack b in
    jsonnetFmt b
  end.

End Package.

(** ** A structural decoder, for the round trip of literal trees *)

Module decoder.

Fixpoint skip_ws (s : string) : string :=
  match s with
  | String c t => if json.isSpace c then skip_ws t else s
  | "" => ""
  end.

(** Split the text after an opening quote at the closing quote: the
    literal's body with its closing quote, and what follows. *)
Fixpoint literal_end (s : string) (esc : bool) : option (string * string) :=
  match s with
  | "" => None
  | String c t =>
    if negb esc && Ascii.eqb c dquote then Some (str1 dquote, t)
    else
      match literal_end t (negb esc && Ascii.eqb c bslash) with
      | Some (body, rest) => Some (String c body, rest)
      | None => None
      end
  end.

Definition parse_string (t : string) : option (string * string) :=
  match literal_end t false with
  | Some (body, rest) =>
    match json.Unmarshal (String dquote body) with
    | (s, None) => Some (s, rest)
    | (_, Some _) => None
    end
  | None => None
  end.

Fixpoint digits (s : string) (acc : Z) : Z * string :=
  match s with
  | String c t =>
    if is_digit c then digits t (10 * acc + Z.of_N (b2n c - 48))%Z
    else (acc, s)
  | "" => (acc, "")
  end.

Definition parse_int (s : string) : option (Z * string) :=
  match s with
  | String c t =>
    if Ascii.eqb c "-"%char then
      match t with
      | String d _ =>
        if is_digit d then let '(n, r) := digits t 0%Z in Some ((- n)%Z, r)
        else None
      | "" => None
      end
    else if is_digit c then Some (digits s 0%Z)
    else None
  | "" => None
  end.

Fixpoint parse_value (fuel : nat) (s : string) : option (value * string) :=
  match fuel with
  | O => None
  | S f =>
    match skip_ws s with
    | "" => None
    | String c t as s' =>
      if Ascii.eqb c dquote then
        match parse_string t with
        | Some (x, r) => Some (GoString x, r)
        | None => None
        end
      else if Ascii.eqb c "["%char then
        match skip_ws t with
        | String c' r =>
          if Ascii.eqb c' "]"%char then Some (GoSlice [], r)
          else
            match parse_elems f t with
            | Some (l, r') => Some (GoSlice l, r')
            | None => None
            end
        | "" => None
        end
      else if Ascii.eqb c "{"%char then
        match skip_ws t with
        | String c' r =>
          if Ascii.eqb c' "}"%char then Some (GoStruct [], r)
          else
            match parse_members f t with
            | Some (l, r') => Some (GoStruct l, r')
            | None => None
            end
        | "" => None
        end
      else if starts_with "null" s' then Some (GoNil, drop 4 s')
      else if starts_with "true" s' then Some (GoBool true, drop 4 s')
      else if starts_with "false" s' then Some (GoBool false, drop 5 s')
      else
        match parse_int s' with
        | Some (n, r) => Some (GoInt n, r)
        | None => None
        end
    end
  end
with parse_elems (fuel : nat) (s : string) : option (list value * string) :=
  match fuel with
  | O => None
  | S f =>
    match parse_value f s with
    | Some (v, r) =>
      match skip_ws r with
      | String c r' =>
        if Ascii.eqb c ","%char then
          match parse_elems f r' with
          | Some (l, r'') => Some (v :: l, r'')
          | None => None
          end
        else if Ascii.eqb c "]"%char then Some ([v], r')
        else None
      | "" => None
      end
    | None => None
    end
  end
with parse_members (fuel : nat) (s : string)
     : option (list (string * value) * string) :=
  match fuel with
  | O => None
  | S f =>
    match skip_ws s with
    | String q t =>
      if Ascii.eqb q dquote then
        match parse_string t with
        | Some (k, r) =>
          match skip_ws r with
          | String c r1 =>
            if Ascii.eqb c ":"%char then
              match parse_value f r1 with
              | Some (v, r2) =>
                match skip_ws r2 with
                | String c' r3 =>
                  if Ascii.eqb c' ","%char then
                    match parse_members f r3 with
                    | Some (l, r4) => Some ((k, v) :: l, r4)
                    | None => None
                    end
                  else if Ascii.eqb c' "}"%char then Some ([(k, v)], r3)
                  else None
                | "" => None
                end
              | None => None
              end
            else None
          | "" => None
          end
        | None => None
        end
      else None
    | "" => None
    end
  end.

(** Decode one JSON text (integers only among the numbers) into a
    literal value tree. *)
Definition Decode (s : string) : option value :=
  match parse_value (S (String.length s)) s with
  | Some (v, rest) =>
    match skip_ws rest with
    | "" => Some v
    | _ => None
    end
  | None => None
  end.

End decoder.

(** ** Vocabulary of the properties *)

(** A value tree without expression nodes. *)
Fixpoint is_literal (v : value) : bool :=
  match v with
  | GoNil | GoBool _ | GoInt _ | GoString _ => true
  | GoSlice l => forallb is_literal l
  | GoStruct fs => forallb (fun kv => is_literal (snd kv)) fs
  | _ => false
  end.

Fixpoint all_bytes (p : ascii -> bool) (s : string) : bool :=
  match s with
  | "" => true
  | String c t => p c && all_bytes p t
  end.

(** Does [p] occur in [s]. *)
Fixpoint occurs (p s : string) : bool :=
  starts_with p s ||
  match s with
  | "" => false
  | String _ t => occurs p t
  end.

(** Does [s] hold the open marker followed later by the close marker. *)
Fixpoint has_marker_pair (s : string) : bool :=
  (starts_with jsonnetEscapeOpen s
   && occurs jsonnetEscapeClose (drop (String.length jsonnetEscapeOpen) s)) ||
  match s with
  | "" => false
  | String _ t => has_marker_pair t
  end.

(** The bytes whose Go quoting [%q] is also their JSON quoting: printable
    ASCII and the controls with a short escape in both syntaxes. *)
Definition plain_byte (c : ascii) : bool :=
  let n := b2n c in
  ((0x20 <=? n) && (n <=? 0x7E) || (n =? 8) || (n =? 9) || (n =? 10)
   || (n =? 12) || (n =? 13))%N.

Definition plain (s : string) : bool := all_bytes plain_byte s.

Definition not_quote (c : ascii) : bool := negb (Ascii.eqb c dquote).
Definition not_newline (c : ascii) : bool := negb (Ascii.eqb c newline).

(** The lexical shape of a bare identifier, after the words of the
    specification: a letter or underscore, then letters, digits and
    underscores, and nothing else. *)
Definition ident_shape (s : string) : bool :=
  match s with
  | "" => false
  | String c t => id_start c && all_bytes id_char t
  end.

Definition reserved_words : list string :=
  [ "assert"; "else"; "error"; "false"; "for"; "function"; "if"; "import";
    "importstr"; "importbin"; "in"; "local"; "null"; "tailstrict"; "then";
    "self"; "super"; "true" ].

Definition is_reserved (s : string) : bool :=
  existsb (fun w => String.eqb w s) reserved_words.


(** The pass-through formatter ([jsonnetFmt] was one before go-jsonnet had
    a formatter) and an empty table of printable runes, to run the
    package. *)
Definition nop_formatter (_ b : string) : string * option error := (b, None).
Definition no_table (_ : N) : bool := false.

(** The shorthand pass of [Marshal]. *)
Definition shorthand (b : string) : string := ReplaceAll_group1_colon superHack b.

(** The length of the shortest run of non-newline bytes at the head of [s]
    after which [pat] follows: where a lazy [.*] followed by the literal
    [pat] stops. *)
Fixpoint scan_to (pat s : string) : option nat :=
  if starts_with pat s then Some 0
  else
    match s with
    | "" => None
    | String c t =>
      if AnyCharNotNL c then option_map S (scan_to pat t) else None
    end.

(** The literal texts around the repetitions of [exprRegexp] and
    [superHack]. *)
Definition expr_open : string := String dquote jsonnetEscapeOpen.
Definition expr_close : string := jsonnetEscapeClose ++ str1 dquote.
Definition key_close : string := "+" ++ String dquote ":".

(** No percent sign directly followed by a quote in [prev] followed by
    [s]. *)
Fixpoint qsafe (prev : ascii) (s : string) : bool :=
  match s with
  | "" => true
  | String c t =>
    negb (Ascii.eqb c dquote && Ascii.eqb prev "%"%char) && qsafe c t
  end.

Definition pct_quote : string := String "%"%char (str1 dquote).


(** The escape [%q] gives a byte below 0x80, and what the encoder's
    [compact] makes of it. *)
Definition go_escape (c : ascii) : string :=
  strconv.appendEscapedRune no_table (b2n c).

Definition json_escape (c : ascii) : string :=
  json.compact_loop (go_escape c) false 0.

Fixpoint esc_map (e : ascii -> string) (s : string) : string :=
  match s with
  | "" => ""
  | String c t => e c ++ esc_map e t
  end.

Fixpoint last_byte (s : string) (d : ascii) : ascii :=
  match s with
  | "" => d
  | String c t => last_byte t c
  end.

(** An escape of the plain bytes that the JSON scanner accepts, that
    [unquoteBytes] undoes, and that holds no newline and no quote after a
    percent sign. *)
Definition good_escape (e : ascii -> string) : Prop :=
  forall c, plain_byte c = true ->
    (forall t, json.unquote_loop (e c ++ t) 0
               = json.prepend (str1 c) (json.unquote_loop t 0))
    /\ (forall t, json.scan_string (e c ++ t) json.InString
                  = json.scan_string t json.InString)
    /\ (forall prev t, qsafe prev (e c ++ t) = qsafe (last_byte (e c) prev) t)
    /\ all_bytes not_newline (e c) = true.

(** A text made of complete lines: empty, or ending in a line feed. *)
Fixpoint complete_lines (s : string) : bool :=
  match s with
  | "" => true
  | String c t =>
    match t with
    | "" => Ascii.eqb c newline
    | _ => complete_lines t
    end
  end.

(** The replacement loop of the shorthand pass, [skip] bytes into a
    match. *)
Definition sh_loop (s : string) (skip : nat) : string :=
  fst (replace_loop superHack expand_group1_colon s 0 skip tt).

(** The bell character, a control byte that [%q] escapes in Go's syntax
    only. *)
Definition bell : string := str1 "007"%char.

(** A formatter that refuses a text with the shorthand operator, to run
    [Marshal] into a formatter error. *)
Definition picky_formatter (_ b : string) : string * option error :=
  if occurs "+:" b then ("", Some (FormatError "unexpected operator"))
  else (b, None).

Definition hack_struct : value := GoStruct [("hack+", GoString "foo")].

(** The value of [ExampleMarshal] in the package's test file. *)
Definition example_value : value :=
  GoStruct
    [ ("name", GoString "foo");
      ("stuff", Import "bar");
      ("stuffstr", ImportStr "bar.txt");
      ("stuffbin", ImportBin "bar.bin");
      ("var", Var "baz");
      ("sum", Sum (Some [GoInt 40; Var "x"; GoString "foo"; Import "stuff";
                         GoStruct [("x", GoInt 42)]]));
      ("index", Index (Var "a")
                  (Sum (Some [GoString "k"; GoString "e"; GoString "y"])));
      ("dot", Member (Var "a") "field");
      ("fieldQuot", Member (Var "a") "1f");
      ("hack+", GoString "foo");
      ("selffoo", Self "foo");
      ("selfquot", Self "foo-bar");
      ("selfres", Self "self");
      ("superfoo", Super "foo");
      ("superquot", Super "foo-bar");
      ("superres", Super "self") ].

(** What [Marshal] hands to the formatter for it.  The test's expected
    output differs in two lines, [dot] and [selffoo], which the formatter
    prints in the dot form. *)
Definition example_text : string :=
  lit "{" ++ nl
  ++ lit "    'name': 'foo'," ++ nl
  ++ lit "    'stuff': (import 'bar')," ++ nl
  ++ lit "    'stuffstr': (importstr 'bar.txt')," ++ nl
  ++ lit "    'stuffbin': (importbin 'bar.bin')," ++ nl
  ++ lit "    'var': baz," ++ nl
  ++ lit "    'sum': 40+x+'foo'+(import 'stuff')+{" ++ nl
  ++ lit "    'x': 42" ++ nl
  ++ lit "}," ++ nl
  ++ lit "    'index': a['k'+'e'+'y']," ++ nl
  ++ lit "    'dot': a['field']," ++ nl
  ++ lit "    'fieldQuot': a['1f']," ++ nl
  ++ lit "    hack+: 'foo'," ++ nl
  ++ lit "    'selffoo': self['foo']," ++ nl
  ++ lit "    'selfquot': self['foo-bar']," ++ nl
  ++ lit "    'selfres': self['self']," ++ nl
  ++ lit "    'superfoo': super.foo," ++ nl
  ++ lit "    'superquot': super['foo-bar']," ++ nl
  ++ lit "    'superres': super['self']" ++ nl
  ++ lit "}" ++ nl.

(** The bytes below 0x80, and the texts made of them. *)
Definition ascii_byte (c : ascii) : bool := (b2n c <? 0x80)%N.

Definition ascii_text (s : string) : bool := all_bytes ascii_byte s.

(** The printable ASCII bytes that [%q] copies as they are: all but the
    quote and the backslash. *)
Definition bare_byte (c : ascii) : bool :=
  ((0x20 <=? b2n c) && (b2n c <=? 0x7E))%N
  && negb (Ascii.eqb c dquote) && negb (Ascii.eqb c bslash).

(** The decoder's error for an escape that JSON does not have. *)
Definition bad_escape : error :=
  SyntaxError "invalid character in string escape code".

(** The escape the encoder of [encoding/json] writes for one byte of a Go
    string. *)
Definition enc_escape (c : ascii) : string := json.string_loop (str1 c) 0 true.

(** A struct whose fields are all expressions, given by key and text, and
    the line of such a field in the encoder's output and in the document. *)
Definition expr_field (kx : string * string) : string * value :=
  (fst kx, Var (snd kx)).

Definition wrapped_line (kx : string * string) : string :=
  json.encode_string (fst kx) ++ ": "
    ++ expr_open ++ esc_map json_escape (snd kx) ++ expr_close.

Definition field_line (kx : string * string) : string :=
  json.encode_string (fst kx) ++ ": " ++ snd kx.

Definition field_ok (kx : string * string) : bool :=
  negb (occurs expr_open (json.encode_string (fst kx))) && plain (snd kx).

(** * Properties *)

Unset Implicit Arguments.

(** ** Texts *)

Lemma sapp_assoc (a b c : string) : (a ++ b) ++ c = a ++ b ++ c.
Proof. induction a as [|x a IH]; simpl; [reflexivity | now rewrite IH]. Qed.

Lemma sapp_nil_r (a : string) : a ++ "" = a.
Proof. induction a as [|x a IH]; simpl; [reflexivity | now rewrite IH]. Qed.

Lemma slength_app (a b : string) :
  String.length (a ++ b) = String.length a + String.length b.
Proof. induction a as [|x a IH]; simpl; [reflexivity | now rewrite IH]. Qed.

Lemma drop_app (a b : string) : drop (String.length a) (a ++ b) = b.
Proof. induction a as [|x a IH]; simpl; [now destruct b | exact IH]. Qed.

Lemma take_app (a b : string) : take (String.length a) (a ++ b) = a.
Proof. induction a as [|x a IH]; simpl; [now destruct b | now rewrite IH]. Qed.

Lemma drop_0 (s : string) : drop 0 s = s.
Proof. now destruct s. Qed.

Lemma take_all (s : string) : take (String.length s) s = s.
Proof. induction s as [|x s IH]; simpl; [reflexivity | now rewrite IH]. Qed.

Lemma starts_with_app (p s : string) : starts_with p (p ++ s) = true.
Proof.
  induction p as [|x p IH]; simpl; [reflexivity|].
  now rewrite Ascii.eqb_refl, IH.
Qed.

Lemma starts_with_split (p q s : string) :
  starts_with (p ++ q) s
  = starts_with p s && starts_with q (drop (String.length p) s).
Proof.
  revert s; induction p as [|x p IH]; intros s; simpl.
  - now rewrite ?drop_0.
  - destruct s as [|y s]; simpl; [reflexivity|].
    rewrite IH. now destruct (Ascii.eqb x y).
Qed.

Lemma rev_onto_spec (s acc : string) : rev_onto s acc = srev s ++ acc.
Proof.
  unfold srev. revert acc.
  induction s as [|x s IH]; intros acc; simpl; [reflexivity|].
  rewrite (IH (String x acc)), (IH (String x "")), sapp_assoc. reflexivity.
Qed.

Lemma srev_app (a b : string) : srev (a ++ b) = srev b ++ srev a.
Proof.
  induction a as [|x a IH]; simpl.
  - now rewrite sapp_nil_r.
  - unfold srev in *; simpl.
    rewrite (rev_onto_spec (a ++ b)), (rev_onto_spec a).
    unfold srev. rewrite IH, sapp_assoc. reflexivity.
Qed.

Lemma srev_length (s : string) : String.length (srev s) = String.length s.
Proof.
  induction s as [|x s IH]; [reflexivity|].
  change (srev (String x s)) with (rev_onto s (String x "")).
  rewrite rev_onto_spec, slength_app, IH. simpl. lia.
Qed.

Lemma TrimPrefix_app (p s : string) : TrimPrefix (p ++ s) p = s.
Proof.
  unfold TrimPrefix, HasPrefix. now rewrite starts_with_app, drop_app.
Qed.

Lemma TrimSuffix_app (s p : string) : TrimSuffix (s ++ p) p = s.
Proof.
  unfold TrimSuffix, HasSuffix.
  rewrite srev_app, starts_with_app, slength_app.
  replace (String.length s + String.length p - String.length p)
    with (String.length s) by lia.
  apply take_app.
Qed.

Lemma all_bytes_app (p : ascii -> bool) (a b : string) :
  all_bytes p (a ++ b) = all_bytes p a && all_bytes p b.
Proof.
  induction a as [|x a IH]; simpl; [reflexivity|].
  now rewrite IH, andb_assoc.
Qed.

(** ** The backtracking matcher on the package's patterns *)

Lemma star_ext (R : Type) (p : ascii -> bool) (g : bool) (s : string) :
  forall pos (k1 k2 : string -> nat -> option R),
    (forall s' pos', k1 s' pos' = k2 s' pos') ->
    star p g s pos k1 = star p g s pos k2.
Proof.
  induction s as [|c t IH]; intros pos k1 k2 H; simpl; [apply H|].
  rewrite (IH (S pos) k1 k2 H), (H (String c t) pos). reflexivity.
Qed.

Lemma rmatch_Lits (R : Type) (p : string) :
  forall s pos cap (k : string -> nat -> option string -> option R),
    rmatch (Lits p) s pos cap k
    = if starts_with p s
      then k (drop (String.length p) s) (pos + String.length p) cap
      else None.
Proof.
  induction p as [|a p IH]; intros s pos cap k; simpl.
  - now rewrite ?drop_0, ?Nat.add_0_r.
  - destruct s as [|b s]; [reflexivity|].
    destruct (Ascii.eqb a b); simpl; [|reflexivity].
    rewrite IH. now rewrite Nat.add_succ_r.
Qed.

(** A lazy [.*] followed by a literal stops at [scan_to]. *)
Lemma star_lazy_scan (R : Type) (pat : string) (F : string -> nat -> R) :
  forall s pos,
    star AnyCharNotNL false s pos
      (fun s' pos' => if starts_with pat s' then Some (F s' pos') else None)
    = match scan_to pat s with
      | Some n => Some (F (drop n s) (pos + n))
      | None => None
      end.
Proof.
  induction s as [|c t IH]; intros pos.
  - simpl. destruct pat; simpl; [now rewrite Nat.add_0_r | reflexivity].
  - cbn [star scan_to].
    destruct (starts_with pat (String c t)) eqn:Hp.
    + destruct (AnyCharNotNL c); simpl; now rewrite Nat.add_0_r.
    + destruct (AnyCharNotNL c); simpl; [|reflexivity].
      rewrite IH. destruct (scan_to pat t) as [n|]; simpl; [|reflexivity].
      now rewrite Nat.add_succ_r.
Qed.

(** Where [exprRegexp] matches at the head of a text. *)
Lemma match_at_exprRegexp (s : string) (pos : nat) :
  match_at exprRegexp s pos
  = if starts_with expr_open s then
      match scan_to expr_close (drop 12 s) with
      | Some n => Some (n + 24, Some (take n (drop 12 s)))
      | None => None
      end
    else None.
Proof.
  unfold match_at, exprRegexp.
  change (Cat (Lit dquote) (Cat (Lits jsonnetEscapeOpen) ?r))
    with (Cat (Lit dquote) (Cat (Lits jsonnetEscapeOpen) r)).
  cbn [rmatch].
  destruct s as [|c s]; [reflexivity|].
  unfold expr_open. cbn [starts_with].
  destruct (Ascii.eqb dquote c); [|reflexivity].
  rewrite rmatch_Lits. cbn [andb].
  destruct (starts_with jsonnetEscapeOpen s) eqn:Ho; [|reflexivity].
  change (drop 12 (String c s)) with (drop 11 s).
  change (String.length jsonnetEscapeOpen) with 11.
  cbn [rmatch].
  erewrite star_ext.
  - rewrite (star_lazy_scan _ expr_close
               (fun s' pos' => (pos' + 12 - pos, Some (take (pos' - (S pos + 11)) (drop 11 s))))).
    destruct (scan_to expr_close (drop 11 s)) as [n|]; [|reflexivity].
    f_equal. f_equal; [lia|]. do 2 f_equal. lia.
  - intros s' pos'. cbn beta.
    rewrite (rmatch_Lits _ jsonnetEscapeClose).
    unfold expr_close. rewrite starts_with_split.
    destruct (starts_with jsonnetEscapeClose s'); [|reflexivity].
    change (String.length jsonnetEscapeClose) with 11.
    cbn [andb]. destruct (drop 11 s') as [|d u]; [reflexivity|].
    cbn [starts_with str1 rmatch]. 
    destruct (Ascii.eqb dquote d); [|reflexivity].
    cbn [andb]. f_equal. f_equal. lia.
Qed.

(** Where [superHack] matches at the head of a text. *)
Lemma match_at_superHack (s : string) (pos : nat) :
  match_at superHack s pos
  = match s with
    | "" => None
    | String c t =>
      if Ascii.eqb dquote c then
        match scan_to key_close t with
        | Some n => Some (n + 4, Some (take (S n) t))
        | None => None
        end
      else None
    end.
Proof.
  unfold match_at, superHack. cbn [rmatch].
  destruct s as [|c t]; [reflexivity|].
  destruct (Ascii.eqb dquote c); [|reflexivity].
  erewrite star_ext.
  - rewrite (star_lazy_scan _ key_close
               (fun s' pos' => (pos' + 3 - pos, Some (take (S pos' - S pos) t)))).
    destruct (scan_to key_close t) as [n|]; [|reflexivity].
    f_equal. f_equal; [lia|]. do 2 f_equal. lia.
  - intros s' pos'. cbn beta.
    unfold key_close.
    destruct s' as [|a s']; [reflexivity|].
    cbn [starts_with append rmatch Lits].
    destruct (Ascii.eqb "+" a); [|reflexivity].
    destruct s' as [|b s']; [reflexivity|].
    destruct (Ascii.eqb dquote b); [|reflexivity].
    destruct s' as [|d s']; [reflexivity|].
    destruct (Ascii.eqb ":" d); [|reflexivity].
    cbn [andb]. f_equal. f_equal. lia.
Qed.

(** ** Replacement *)

Section Replace.

Variable St : Type.
Variable r : regex.
Variable repl : St -> string -> option string -> string * St.

Lemma replace_loop_skip (a b : string) :
  forall pos st,
    replace_loop r repl (a ++ b) pos (String.length a) st
    = replace_loop r repl b (pos + String.length a) 0 st.
Proof.
  induction a as [|x a IH]; intros pos st; simpl.
  - now rewrite Nat.add_0_r.
  - rewrite IH. now rewrite Nat.add_succ_r.
Qed.

Hypothesis match_at_pos : forall s p p', match_at r s p = match_at r s p'.

Lemma replace_loop_pos (s : string) :
  forall p p' skip st,
    replace_loop r repl s p skip st = replace_loop r repl s p' skip st.
Proof.
  induction s as [|c t IH]; intros p p' skip st; simpl; [reflexivity|].
  destruct skip as [|k]; [|apply IH].
  rewrite (match_at_pos (String c t) p p').
  destruct (match_at r (String c t) p') as [[[|len] cap]|].
  - now rewrite (IH (S p) (S p')).
  - destruct (repl st (String c (take len t)) cap) as [out st1].
    now rewrite (IH (S p) (S p')).
  - now rewrite (IH (S p) (S p')).
Qed.

End Replace.

Lemma exprRegexp_pos (s : string) (p p' : nat) :
  match_at exprRegexp s p = match_at exprRegexp s p'.
Proof. now rewrite !match_at_exprRegexp. Qed.

Lemma superHack_pos (s : string) (p p' : nat) :
  match_at superHack s p = match_at superHack s p'.
Proof. now rewrite !match_at_superHack. Qed.

(** ** Scanning for a closing literal *)

Lemma drop_drop (n m : nat) (s : string) : drop n (drop m s) = drop (m + n) s.
Proof.
  revert s; induction m as [|m IH]; intros s; simpl.
  - now rewrite ?drop_0.
  - destruct s as [|c t]; [now destruct n | apply IH].
Qed.

Lemma scan_to_here (pat rest : string) : scan_to pat (pat ++ rest) = Some 0.
Proof.
  destruct (pat ++ rest) eqn:E; simpl; rewrite <- E, starts_with_app;
    reflexivity.
Qed.

Lemma scan_to_skip (pat : string) (B U : string) :
  all_bytes not_newline B = true ->
  (forall n, n < String.length B -> starts_with pat (drop n (B ++ U)) = false) ->
  scan_to pat (B ++ U)
  = option_map (fun m => String.length B + m) (scan_to pat U).
Proof.
  induction B as [|c B IH]; intros Hnl Hno.
  - simpl. now destruct (scan_to pat U).
  - simpl in Hnl. apply andb_prop in Hnl as [Hc HB].
    cbn [append scan_to].
    assert (H0 := Hno 0 ltac:(simpl; lia)). simpl in H0.
    rewrite H0.
    unfold AnyCharNotNL, not_newline in *. rewrite Hc.
    rewrite IH; [| exact HB |].
    + destruct (scan_to pat U); reflexivity.
    + intros n Hn. apply (Hno (S n)). simpl. lia.
Qed.

Lemma qsafe_no_pct_quote (S0 : string) :
  forall prev n U,
    qsafe prev S0 = true -> n + 2 <= String.length S0 ->
    starts_with pct_quote (drop n (S0 ++ U)) = false.
Proof.
  induction S0 as [|a S1 IH]; intros prev n U Hq Hn; cbn [String.length] in Hn;
    [lia|].
  cbn [qsafe] in Hq. apply andb_prop in Hq as [_ Hq].
  destruct n as [|n].
  - destruct S1 as [|b S2]; cbn [String.length] in Hn; [lia|].
    cbn [qsafe] in Hq. apply andb_prop in Hq as [Hab _].
    unfold pct_quote, str1. cbn [drop append starts_with].
    destruct (Ascii.eqb "%" a) eqn:Ea; [|reflexivity].
    apply Ascii.eqb_eq in Ea. subst a.
    rewrite Ascii.eqb_refl, andb_true_r in Hab.
    apply negb_true_iff in Hab.
    rewrite Ascii.eqb_sym, Hab. reflexivity.
  - cbn [drop append]. apply (IH a); [exact Hq | lia].
Qed.

(** The bytes before a closing [expr_close] hold no earlier one when no
    quote in them follows a percent sign. *)
Lemma no_early_close (B rest : string) (prev : ascii) :
  qsafe prev (B ++ jsonnetEscapeClose) = true ->
  forall n, n < String.length B ->
    starts_with expr_close (drop n (B ++ expr_close ++ rest)) = false.
Proof.
  intros Hq n Hn.
  change expr_close with (" tennojs%%" ++ pct_quote).
  rewrite starts_with_split.
  change (String.length " tennojs%%") with 10.
  rewrite drop_drop.
  replace (B ++ (" tennojs%%" ++ pct_quote) ++ rest)
    with ((B ++ jsonnetEscapeClose) ++ String dquote rest).
  - rewrite (qsafe_no_pct_quote _ prev); [apply andb_false_r | exact Hq |].
    rewrite slength_app. simpl. lia.
  - rewrite !sapp_assoc. reflexivity.
Qed.

(** [exprRegexp] on a wrapped literal at the head of a text. *)
Lemma match_wrapped (B rest : string) (prev : ascii) (pos : nat) :
  all_bytes not_newline B = true ->
  qsafe prev (B ++ jsonnetEscapeClose) = true ->
  match_at exprRegexp (expr_open ++ B ++ expr_close ++ rest) pos
  = Some (String.length B + 24, Some B).
Proof.
  intros Hnl Hq.
  rewrite match_at_exprRegexp, starts_with_app.
  change 12 with (String.length expr_open). rewrite drop_app.
  rewrite scan_to_skip; [| exact Hnl | now apply (no_early_close B rest prev)].
  rewrite scan_to_here. cbn [option_map].
  now rewrite Nat.add_0_r, take_app.
Qed.

(** ** The escapes of plain bytes *)

Ltac each_byte c H :=
  destruct c as [[|] [|] [|] [|] [|] [|] [|] [|]];
  try (exfalso; vm_compute in H; discriminate H); clear H.

Lemma go_escape_good : good_escape go_escape.
Proof.
  intros c H. each_byte c H;
    (split; [intros t; reflexivity
            | split; [intros t; reflexivity
                     | split; [intros prev t; reflexivity | reflexivity]]]).
Qed.

Lemma json_escape_good : good_escape json_escape.
Proof.
  intros c H. each_byte c H;
    (split; [intros t; reflexivity
            | split; [intros t; reflexivity
                     | split; [intros prev t; reflexivity | reflexivity]]]).
Qed.

Lemma prepend_nil (r : option string) : json.prepend "" r = r.
Proof. now destruct r. Qed.

Lemma prepend_prepend (a b : string) (r : option string) :
  json.prepend a (json.prepend b r) = json.prepend (a ++ b) r.
Proof. destruct r; simpl; [now rewrite sapp_assoc | reflexivity]. Qed.

Section Escapes.

Variable e : ascii -> string.
Hypothesis He : good_escape e.

Lemma unquote_esc_map (x : string) :
  plain x = true ->
  forall t, json.unquote_loop (esc_map e x ++ t) 0
            = json.prepend x (json.unquote_loop t 0).
Proof.
  induction x as [|c x IH]; intros Hx t.
  - now rewrite prepend_nil.
  - cbn [plain all_bytes] in Hx. apply andb_prop in Hx as [Hc Hx].
    cbn [esc_map]. rewrite sapp_assoc.
    destruct (He c Hc) as [Hu _]. rewrite Hu, (IH Hx), prepend_prepend.
    reflexivity.
Qed.

Lemma scan_esc_map (x : string) :
  plain x = true ->
  forall t, json.scan_string (esc_map e x ++ t) json.InString
            = json.scan_string t json.InString.
Proof.
  induction x as [|c x IH]; intros Hx t; [reflexivity|].
  cbn [plain all_bytes] in Hx. apply andb_prop in Hx as [Hc Hx].
  cbn [esc_map]. rewrite sapp_assoc.
  destruct (He c Hc) as [_ [Hs _]]. now rewrite Hs, (IH Hx).
Qed.

Lemma qsafe_esc_map (x : string) :
  plain x = true ->
  forall prev t, exists prev', qsafe prev (esc_map e x ++ t) = qsafe prev' t.
Proof.
  induction x as [|c x IH]; intros Hx prev t; [now exists prev|].
  cbn [plain all_bytes] in Hx. apply andb_prop in Hx as [Hc Hx].
  cbn [esc_map]. rewrite sapp_assoc.
  destruct (He c Hc) as [_ [_ [Hq _]]]. rewrite Hq. apply (IH Hx).
Qed.

Lemma newline_esc_map (x : string) :
  plain x = true -> all_bytes not_newline (esc_map e x) = true.
Proof.
  induction x as [|c x IH]; intros Hx; [reflexivity|].
  cbn [plain all_bytes] in Hx. apply andb_prop in Hx as [Hc Hx].
  cbn [esc_map]. rewrite all_bytes_app, (IH Hx).
  destruct (He c Hc) as [_ [_ [_ Hn]]]. now rewrite Hn.
Qed.

End Escapes.

Lemma scan_open (X : string) :
  json.scan_string (jsonnetEscapeOpen ++ X) json.InString
  = json.scan_string X json.InString.
Proof.
  exact (scan_esc_map go_escape go_escape_good jsonnetEscapeOpen eq_refl X).
Qed.

Lemma unquote_open (X : string) :
  json.unquote_loop (jsonnetEscapeOpen ++ X) 0
  = json.prepend jsonnetEscapeOpen (json.unquote_loop X 0).
Proof.
  exact (unquote_esc_map go_escape go_escape_good jsonnetEscapeOpen eq_refl X).
Qed.

Lemma unquote_close :
  json.unquote_loop expr_close 0 = Some jsonnetEscapeClose.
Proof. reflexivity. Qed.

Section Unwrap.

Variable e : ascii -> string.
Hypothesis He : good_escape e.

(** What the callback of [unwrap] makes of a wrapped literal. *)
Lemma unwrap_func_wrapped (x : string) (cap : option string) :
  plain x = true ->
  unwrap_func None (expr_open ++ esc_map e x ++ expr_close) cap = (x, None).
Proof.
  intros Hx. unfold unwrap_func, json.Unmarshal, json.checkValid.
  unfold expr_open. cbn [append]. rewrite Ascii.eqb_refl.
  rewrite scan_open, (scan_esc_map e He _ Hx).
  replace (json.scan_string expr_close json.InString)
    with (@None error) by reflexivity.
  rewrite unquote_open, (unquote_esc_map e He _ Hx), unquote_close.
  cbn [json.prepend ok multierror_Append].
  now rewrite TrimPrefix_app, TrimSuffix_app.
Qed.

(** [unwrap] on a text that starts with a wrapped literal. *)
Lemma unwrap_wrapped (x rest : string) :
  plain x = true ->
  unwrap (expr_open ++ esc_map e x ++ expr_close ++ rest)
  = match unwrap rest with
    | (r, None) => ok (x ++ r)
    | (_, Some err) => fail err
    end.
Proof.
  intros Hx.
  destruct (qsafe_esc_map e He _ Hx "x"%char jsonnetEscapeClose) as [prev' Hq].
  assert (Hq' : qsafe "x" (esc_map e x ++ jsonnetEscapeClose) = true)
    by (rewrite Hq; reflexivity).
  assert (Hm := fun pos =>
            match_wrapped (esc_map e x) rest "x"%char pos
              (newline_esc_map e He _ Hx) Hq').
  unfold unwrap, ReplaceAllFunc.
  assert (Hw := unwrap_func_wrapped x (Some (esc_map e x)) Hx).
  remember (esc_map e x) as B eqn:HB.
  assert (Hlen : String.length (expr_open ++ B ++ expr_close)
                 = S (String.length B + 23)).
  { rewrite !slength_app. simpl. lia. }
  specialize (Hm 0).
  replace (expr_open ++ B ++ expr_close ++ rest)
    with ((expr_open ++ B ++ expr_close) ++ rest) in *
    by (rewrite !sapp_assoc; reflexivity).
  remember (expr_open ++ B ++ expr_close) as W eqn:HW.
  destruct W as [|q W']; [discriminate Hlen|].
  cbn [append replace_loop].
  cbn [append] in Hm. rewrite Hm.
  replace (String.length B + 24) with (S (String.length B + 23)) by lia.
  injection Hlen as Hlen.
  change (String q (W' ++ rest)) with (String q W' ++ rest).
  rewrite <- Hlen at 1.
  change (S (String.length W')) with (String.length (String q W')).
  rewrite take_app, Hw.
  rewrite <- Hlen, replace_loop_skip.
  rewrite (replace_loop_pos _ exprRegexp unwrap_func exprRegexp_pos rest _ 0 0 None).
  destruct (replace_loop exprRegexp unwrap_func rest 0 0 None) as [r [err|]];
    reflexivity.
Qed.

End Unwrap.

(** ** [wrap], the encoder and [unwrap] on plain texts *)

Lemma esc_map_app (e : ascii -> string) (a b : string) :
  esc_map e (a ++ b) = esc_map e a ++ esc_map e b.
Proof.
  induction a as [|c a IH]; simpl; [reflexivity|].
  now rewrite IH, sapp_assoc.
Qed.

Lemma quote_loop_byte (tbl : N -> bool) (c : ascii) (t : string) :
  plain_byte c = true ->
  strconv.quote_loop tbl (String c t) 0
  = go_escape c ++ strconv.quote_loop tbl t 0.
Proof. intros H. each_byte c H; reflexivity. Qed.

Lemma quote_loop_plain (tbl : N -> bool) (s t : string) :
  plain s = true ->
  strconv.quote_loop tbl (s ++ t) 0
  = esc_map go_escape s ++ strconv.quote_loop tbl t 0.
Proof.
  induction s as [|c s IH]; intros Hs; [reflexivity|].
  cbn [plain all_bytes] in Hs. apply andb_prop in Hs as [Hc Hs].
  cbn [append esc_map]. rewrite (quote_loop_byte tbl c _ Hc), (IH Hs).
  now rewrite sapp_assoc.
Qed.

Lemma compact_loop_byte (c : ascii) (t : string) :
  plain_byte c = true ->
  json.compact_loop (go_escape c ++ t) false 0
  = json_escape c ++ json.compact_loop t false 0.
Proof. intros H. each_byte c H; reflexivity. Qed.

Lemma compact_loop_plain (s t : string) :
  plain s = true ->
  json.compact_loop (esc_map go_escape s ++ t) false 0
  = esc_map json_escape s ++ json.compact_loop t false 0.
Proof.
  induction s as [|c s IH]; intros Hs; [reflexivity|].
  cbn [plain all_bytes] in Hs. apply andb_prop in Hs as [Hc Hs].
  cbn [esc_map]. rewrite sapp_assoc, (compact_loop_byte c _ Hc), (IH Hs).
  now rewrite sapp_assoc.
Qed.

Lemma plain_wrapped (x : string) :
  plain x = true ->
  plain (jsonnetEscapeOpen ++ x ++ jsonnetEscapeClose) = true.
Proof.
  intros Hx. unfold plain in *. now rewrite !all_bytes_app, Hx.
Qed.

(** [wrap] on a plain text: the markers around the Go escapes of its
    bytes, in quotes. *)
Lemma wrap_plain (tbl : N -> bool) (x : string) :
  plain x = true ->
  wrap tbl x = expr_open ++ esc_map go_escape x ++ expr_close.
Proof.
  intros Hx. unfold wrap, strconv.Quote.
  rewrite <- (sapp_nil_r (jsonnetEscapeOpen ++ x ++ jsonnetEscapeClose)).
  rewrite (quote_loop_plain tbl _ "" (plain_wrapped x Hx)).
  rewrite !esc_map_app. cbn [strconv.quote_loop].
  rewrite sapp_nil_r, !sapp_assoc. reflexivity.
Qed.

(** The encoder's [compact] accepts it and escapes the bytes unsafe in
    HTML. *)
Lemma compact_wrapped (tbl : N -> bool) (x : string) :
  plain x = true ->
  json.compact (wrap tbl x)
  = ok (expr_open ++ esc_map json_escape x ++ expr_close).
Proof.
  intros Hx. rewrite (wrap_plain tbl x Hx).
  unfold json.compact, json.checkValid, expr_open. cbn [append].
  rewrite Ascii.eqb_refl.
  rewrite scan_open, (scan_esc_map go_escape go_escape_good x Hx).
  replace (json.scan_string expr_close json.InString)
    with (@None error) by reflexivity.
  f_equal. f_equal.
  change jsonnetEscapeOpen with (esc_map go_escape jsonnetEscapeOpen) at 1.
  rewrite (compact_loop_plain jsonnetEscapeOpen _ eq_refl).
  rewrite (compact_loop_plain x _ Hx).
  reflexivity.
Qed.

Lemma unwrap_nil : unwrap "" = ok "".
Proof. reflexivity. Qed.

Lemma unwrap_newline : unwrap (str1 newline) = ok (str1 newline).
Proof. reflexivity. Qed.

(** [unwrap] undoes [wrap] on plain texts. *)
Lemma unwrap_wrap_plain (tbl : N -> bool) (x : string) :
  plain x = true -> unwrap (wrap tbl x) = ok x.
Proof.
  intros Hx. rewrite (wrap_plain tbl x Hx).
  rewrite <- (sapp_nil_r expr_close).
  rewrite (unwrap_wrapped go_escape go_escape_good x "" Hx), unwrap_nil.
  unfold ok. now rewrite sapp_nil_r.
Qed.

(** [marshal] of a value whose [MarshalJSON] returns [wrap x] for a plain
    [x] is [x] and the newline of [Encode]. *)
Lemma marshal_wrapped (tbl : N -> bool) (v : value) (typ x : string) :
  plain x = true ->
  encode tbl v 0 = marshalerEncoder typ (ok (wrap tbl x)) ->
  marshal tbl v = ok (x ++ str1 newline).
Proof.
  intros Hx Hv. unfold marshal, marshal_with. rewrite Hv.
  unfold marshalerEncoder, ok at 1. rewrite (compact_wrapped tbl x Hx).
  unfold ok at 1 2. rewrite !sapp_assoc.
  rewrite (unwrap_wrapped json_escape json_escape_good x (str1 newline) Hx).
  now rewrite unwrap_newline.
Qed.

(** ** The identifier classifier *)

Lemma search_idRegexp_later (s : string) :
  forall pos, search idRegexp s (S pos) = false.
Proof.
  induction s as [|c t IH]; intros pos; [reflexivity|].
  cbn [search]. unfold match_at, idRegexp. cbn [rmatch Nat.eqb]. apply IH.
Qed.

Lemma star_greedy_end (R : Type) (F : nat -> R) (t : string) :
  forall pos,
    star id_char true t pos
      (fun s' pos' => match s' with "" => Some (F pos') | _ => None end)
    = if all_bytes id_char t then Some (F (pos + String.length t)) else None.
Proof.
  induction t as [|c t IH]; intros pos; cbn [star all_bytes String.length].
  - now rewrite Nat.add_0_r.
  - destruct (id_char c); cbn [andb orelse]; [|reflexivity].
    rewrite IH. destruct (all_bytes id_char t); cbn [orelse]; [|reflexivity].
    now rewrite Nat.add_succ_r.
Qed.

(** [idRegexp] matches exactly the texts of the identifier shape. *)
Lemma MatchString_idRegexp (s : string) :
  MatchString idRegexp s = ident_shape s.
Proof.
  unfold MatchString. destruct s as [|c t]; [reflexivity|].
  cbn [search]. rewrite search_idRegexp_later.
  unfold match_at, idRegexp, ident_shape. cbn [rmatch Nat.eqb].
  destruct (id_start c); cbn [andb]; [|reflexivity].
  erewrite star_ext.
  - rewrite (star_greedy_end _ (fun pos' => (pos' - 0, @None string))).
    now destruct (all_bytes id_char t).
  - intros s' pos'. now destruct s'.
Qed.

Lemma map_lookup_reserved (s : string) :
  snd (map_lookup reservedIdentifiers s) = is_reserved s.
Proof.
  unfold is_reserved, reservedIdentifiers, reserved_words.
  cbn [map_lookup existsb].
  repeat match goal with
         | |- context [String.eqb ?w s] =>
           destruct (String.eqb w s); [reflexivity|]
         end.
  reflexivity.
Qed.

Lemma requiresEscaping_spec (s : string) :
  requiresEscaping s = is_reserved s || negb (ident_shape s).
Proof.
  unfold requiresEscaping.
  rewrite <- map_lookup_reserved, MatchString_idRegexp.
  destruct (map_lookup reservedIdentifiers s) as [v [|]]; reflexivity.
Qed.

Lemma is_reserved_In (s : string) :
  is_reserved s = true <-> In s reserved_words.
Proof.
  unfold is_reserved. rewrite existsb_exists. split.
  - intros [w [Hw He]]. apply String.eqb_eq in He. now subst.
  - intros H. exists s. split; [exact H | apply String.eqb_refl].
Qed.

Lemma id_start_char (c : ascii) : id_start c = true -> id_char c = true.
Proof.
  unfold id_start, id_char. intros H. rewrite H. reflexivity.
Qed.

Lemma digit_not_start (d : ascii) : is_digit d = true -> id_start d = false.
Proof.
  intros H. destruct d as [[|] [|] [|] [|] [|] [|] [|] [|]];
    try reflexivity; vm_compute in H; discriminate H.
Qed.

(** C3: [requiresEscaping] is false exactly on the texts of the identifier
    shape that are not reserved words; it is true on every reserved word,
    on every text with a byte outside the shape, on a leading digit, on a
    hyphen and on the empty text. *)
Theorem requiresEscaping_exact (s : string) :
  (requiresEscaping s = false
   <-> ident_shape s = true /\ ~ In s reserved_words)
  /\ (In s reserved_words -> requiresEscaping s = true)
  /\ (all_bytes id_char s = false -> requiresEscaping s = true)
  /\ (forall d t, is_digit d = true -> requiresEscaping (String d t) = true)
  /\ requiresEscaping "" = true
  /\ requiresEscaping "foo-bar" = true
  /\ requiresEscaping "self" = true
  /\ requiresEscaping "import" = true
  /\ requiresEscaping "null" = true
  /\ requiresEscaping "foo" = false.
Proof.
  rewrite requiresEscaping_spec.
  repeat split; try reflexivity.
  - apply orb_false_iff in H as [_ Hs].
    now apply negb_false_iff in Hs.
  - apply orb_false_iff in H as [Hr _].
    intros Hin. apply is_reserved_In in Hin. congruence.
  - intros [Hs Hr]. rewrite Hs.
    destruct (is_reserved s) eqn:E; [|reflexivity].
    apply is_reserved_In in E. contradiction.
  - intros Hin. apply is_reserved_In in Hin. now rewrite Hin.
  - intros Hb. destruct s as [|c t]; [discriminate Hb|].
    cbn [ident_shape all_bytes] in *.
    destruct (id_start c) eqn:Ec.
    + rewrite (id_start_char c Ec) in Hb. cbn [andb] in *. rewrite Hb.
      apply orb_true_r.
    + apply orb_true_r.
  - intros d t Hd. rewrite requiresEscaping_spec. cbn [ident_shape].
    rewrite (digit_not_start d Hd). apply orb_true_r.
Qed.

(** ** Rendering the expression values *)

Lemma plain_go_escape (c : ascii) :
  plain_byte c = true -> plain (go_escape c) = true.
Proof. intros H. each_byte c H; reflexivity. Qed.

Lemma plain_app (a b : string) : plain (a ++ b) = plain a && plain b.
Proof. apply all_bytes_app. Qed.

Lemma plain_cons (c : ascii) (s : string) :
  plain (String c s) = plain_byte c && plain s.
Proof. reflexivity. Qed.

Lemma plain_esc_map (s : string) :
  plain s = true -> plain (esc_map go_escape s) = true.
Proof.
  induction s as [|c s IH]; intros Hs; [reflexivity|].
  rewrite plain_cons in Hs. apply andb_prop in Hs as [Hc Hs].
  cbn [esc_map].
  rewrite plain_app, (plain_go_escape c Hc), (IH Hs). reflexivity.
Qed.

(** [%q] on a plain text. *)
Lemma quoted_plain (tbl : N -> bool) (s : string) :
  plain s = true ->
  quoted tbl s = String dquote (esc_map go_escape s ++ str1 dquote)
  /\ plain (quoted tbl s) = true.
Proof.
  intros Hs.
  assert (E : quoted tbl s = String dquote (esc_map go_escape s ++ str1 dquote)).
  { unfold quoted, strconv.Quote.
    rewrite <- (sapp_nil_r s) at 1.
    rewrite (quote_loop_plain tbl s "" Hs). cbn [strconv.quote_loop].
    now rewrite sapp_nil_r. }
  split; [exact E|].
  rewrite E, plain_cons, plain_app, (plain_esc_map s Hs). reflexivity.
Qed.

Lemma id_char_escape (c : ascii) :
  id_char c = true -> go_escape c = str1 c /\ plain_byte c = true.
Proof. intros H. each_byte c H; split; reflexivity. Qed.

Lemma ident_escape (s : string) :
  all_bytes id_char s = true -> esc_map go_escape s = s /\ plain s = true.
Proof.
  induction s as [|c s IH]; intros Hs; [split; reflexivity|].
  cbn [all_bytes] in Hs. apply andb_prop in Hs as [Hc Hs].
  destruct (id_char_escape c Hc) as [Ec Pc]. destruct (IH Hs) as [Es Ps].
  cbn [esc_map]. rewrite plain_cons, Ec, Es, Pc, Ps. split; reflexivity.
Qed.

Lemma ident_all_bytes (s : string) :
  requiresEscaping s = false -> all_bytes id_char s = true.
Proof.
  rewrite requiresEscaping_spec. intros H.
  apply orb_false_iff in H as [_ H]. apply negb_false_iff in H.
  destruct s as [|c t]; [discriminate H|].
  cbn [ident_shape all_bytes] in *. apply andb_prop in H as [Hc Ht].
  now rewrite (id_start_char c Hc), Ht.
Qed.

(** [%q] on a bare identifier only adds the quotes. *)
Lemma quoted_ident (tbl : N -> bool) (s : string) :
  requiresEscaping s = false ->
  quoted tbl s = String dquote (s ++ str1 dquote).
Proof.
  intros H. destruct (ident_escape s (ident_all_bytes s H)) as [E P].
  destruct (quoted_plain tbl s P) as [Q _]. now rewrite Q, E.
Qed.

Lemma quoted_in_quotes (tbl : N -> bool) (s : string) :
  exists q, quoted tbl s = String dquote (q ++ str1 dquote).
Proof. now exists (strconv.quote_loop tbl s 0). Qed.

Lemma Sum_loop_ok (m : value -> ret) (elems : list value)
      (frags : list string) :
  Forall2 (fun e b => m e = ok b) elems frags ->
  forall l, Sum_loop m elems l = ((l ++ map TrimSpace frags)%list, None).
Proof.
  induction 1 as [|e b elems frags He _ IH]; intros l; cbn [Sum_loop map].
  - now rewrite app_nil_r.
  - rewrite He. unfold ok. rewrite IH, <- app_assoc. reflexivity.
Qed.

Lemma Sum_MarshalJSON_ok (m : value -> ret) (elems : list value)
      (frags : list string) :
  Forall2 (fun e b => m e = ok b) elems frags ->
  forall tbl, Sum_MarshalJSON tbl m (Some elems)
              = ok (wrap tbl (Join (map TrimSpace frags) "+")).
Proof.
  intros H tbl. unfold Sum_MarshalJSON.
  now rewrite (Sum_loop_ok m elems frags H []).
Qed.





(** C10: a [Sum] that is present but empty does not render as [null]: its
    [MarshalJSON] returns the wrapped empty text, the two markers in
    quotes, and after [unwrap] nothing is left at its place; [null] is
    returned for the nil [Sum] only. *)
Theorem Sum_empty_not_null (tbl : N -> bool) :
  Sum_MarshalJSON tbl (marshal tbl) (Some []) = ok (wrap tbl "")
  /\ wrap tbl ""
     = String dquote (jsonnetEscapeOpen ++ jsonnetEscapeClose ++ str1 dquote)
  /\ marshal tbl (Sum (Some [])) = ok ("" ++ nl)
  /\ marshal tbl (GoStruct [("s", Sum (Some []))])
     = ok (lit "{" ++ nl ++ lit "    's': " ++ nl ++ "}" ++ nl)
  /\ marshal tbl (GoStruct [("s", Sum None)])
     = ok (lit "{" ++ nl ++ lit "    's': null" ++ nl ++ "}" ++ nl)
  /\ (forall s, Sum_MarshalJSON tbl (marshal tbl) s = ok "null" -> s = None).
Proof.
  repeat split; try reflexivity.
  intros s H. destruct s as [elems|]; [exfalso | reflexivity].
  unfold Sum_MarshalJSON in H.
  destruct (Sum_loop (marshal tbl) elems []) as [l [e|]]; [discriminate H|].
  unfold wrap, strconv.Quote, ok in H. injection H as H.
  unfold dquote in H. discriminate H.
Qed.

(** ** The shorthand pass *)

Lemma sh_loop_skip_one (c : ascii) (t : string) (k : nat) :
  sh_loop (String c t) (S k) = sh_loop t k.
Proof.
  unfold sh_loop. cbn [replace_loop].
  now rewrite (replace_loop_pos _ superHack _ superHack_pos t 1 0).
Qed.

Lemma sh_loop_cons (c : ascii) (t : string) :
  sh_loop (String c t) 0
  = if Ascii.eqb dquote c then
      match scan_to key_close t with
      | Some n => (take (S n) t ++ ":") ++ sh_loop t (n + 3)
      | None => String c (sh_loop t 0)
      end
    else String c (sh_loop t 0).
Proof.
  unfold sh_loop. cbn [replace_loop]. rewrite match_at_superHack.
  destruct (Ascii.eqb dquote c).
  - destruct (scan_to key_close t) as [n|].
    + replace (n + 4) with (S (n + 3)) by lia.
      cbn [expand_group1_colon].
      rewrite (replace_loop_pos _ superHack _ superHack_pos t 1 0).
      destruct (replace_loop superHack expand_group1_colon t 0 (n + 3) tt).
      reflexivity.
    + rewrite (replace_loop_pos _ superHack _ superHack_pos t 1 0).
      destruct (replace_loop superHack expand_group1_colon t 0 0 tt).
      reflexivity.
  - rewrite (replace_loop_pos _ superHack _ superHack_pos t 1 0).
    destruct (replace_loop superHack expand_group1_colon t 0 0 tt).
    reflexivity.
Qed.

Lemma sh_loop_skip (a b : string) :
  sh_loop (a ++ b) (String.length a) = sh_loop b 0.
Proof.
  induction a as [|c a IH]; [reflexivity|].
  cbn [append String.length]. now rewrite sh_loop_skip_one.
Qed.

(** Text without a quote is copied. *)
Lemma sh_loop_no_quote (ind rest : string) :
  all_bytes not_quote ind = true ->
  sh_loop (ind ++ rest) 0 = ind ++ sh_loop rest 0.
Proof.
  induction ind as [|c ind IH]; intros H; [reflexivity|].
  cbn [all_bytes] in H. apply andb_prop in H as [Hc H].
  cbn [append]. rewrite sh_loop_cons.
  unfold not_quote in Hc. apply negb_true_iff in Hc.
  rewrite Ascii.eqb_sym, Hc, (IH H). reflexivity.
Qed.

Lemma no_early_key (k post : string) :
  occurs key_close k = false ->
  forall n, n < String.length k ->
    starts_with key_close (drop n (k ++ key_close ++ post)) = false.
Proof.
  induction k as [|c k IH]; intros H n Hn; cbn [String.length] in Hn; [lia|].
  cbn [occurs] in H. apply orb_false_iff in H as [H0 H].
  destruct n as [|n].
  - cbn [drop append]. unfold key_close in *. cbn [append starts_with] in *.
    destruct (Ascii.eqb "+" c); [|reflexivity]. cbn [andb] in *.
    destruct k as [|d k]; [reflexivity|]. cbn [append] in *.
    destruct (Ascii.eqb dquote d); [|reflexivity]. cbn [andb] in *.
    destruct k as [|e k]; [reflexivity|]. exact H0.
  - cbn [drop append]. apply (IH H). lia.
Qed.

(** A quoted key that ends in a plus sign and is followed by a colon
    loses its quotes. *)
Lemma sh_loop_key (k post : string) :
  occurs key_close k = false ->
  all_bytes not_newline k = true ->
  sh_loop (String dquote (k ++ key_close ++ post)) 0
  = k ++ "+:" ++ sh_loop post 0.
Proof.
  intros Hq Hn. rewrite sh_loop_cons, Ascii.eqb_refl.
  rewrite scan_to_skip; [| exact Hn | now apply no_early_key].
  rewrite scan_to_here. cbn [option_map]. rewrite Nat.add_0_r.
  replace (take (S (String.length k)) (k ++ key_close ++ post))
    with (k ++ "+").
  - replace (k ++ key_close ++ post) with ((k ++ key_close) ++ post)
      by apply sapp_assoc.
    replace (String.length k + 3) with (String.length (k ++ key_close))
      by (rewrite slength_app; reflexivity).
    rewrite sh_loop_skip, !sapp_assoc. reflexivity.
  - replace (k ++ key_close ++ post)
      with ((k ++ "+") ++ String dquote (String ":" post))
      by (rewrite sapp_assoc; reflexivity).
    replace (S (String.length k)) with (String.length (k ++ "+"))
      by (rewrite slength_app; simpl; lia).
    now rewrite take_app.
Qed.

Lemma complete_lines_tail (c : ascii) (t : string) :
  complete_lines (String c t) = true -> complete_lines t = true.
Proof. destruct t; [reflexivity | intros H; exact H]. Qed.

Lemma starts_with_line (pat : string) :
  all_bytes not_newline pat = true ->
  forall u q, u <> "" -> complete_lines u = true ->
    starts_with pat (u ++ q) = starts_with pat u.
Proof.
  induction pat as [|a pat IH]; intros Hp u q Hu Hc; [reflexivity|].
  cbn [all_bytes] in Hp. apply andb_prop in Hp as [Ha Hp].
  destruct u as [|c u]; [contradiction|].
  cbn [append starts_with].
  destruct u as [|d u].
  - cbn [complete_lines] in Hc. apply Ascii.eqb_eq in Hc. subst c.
    unfold not_newline in Ha. apply negb_true_iff in Ha. now rewrite Ha.
  - rewrite (IH Hp (String d u) q); [reflexivity | discriminate | exact Hc].
Qed.

Lemma scan_to_line (pat : string) :
  all_bytes not_newline pat = true ->
  forall u q, u <> "" -> complete_lines u = true ->
    scan_to pat (u ++ q) = scan_to pat u.
Proof.
  intros Hp u. induction u as [|c u IH]; intros q Hu Hc; [contradiction|].
  cbn [append scan_to].
  change (String c (u ++ q)) with (String c u ++ q).
  rewrite (starts_with_line pat Hp (String c u) q Hu Hc).
  destruct (starts_with pat (String c u)); [reflexivity|].
  destruct u as [|d u].
  - cbn [complete_lines] in Hc. apply Ascii.eqb_eq in Hc. subst c.
    reflexivity.
  - rewrite (IH q); [reflexivity | discriminate | exact Hc].
Qed.

Lemma starts_with_length (pat u : string) :
  starts_with pat u = true -> String.length pat <= String.length u.
Proof.
  revert u; induction pat as [|a pat IH]; intros u H; cbn [String.length];
    [lia|].
  destruct u as [|c u]; [discriminate H|].
  cbn [starts_with] in H. apply andb_prop in H as [_ H].
  apply IH in H. cbn [String.length]. lia.
Qed.

Lemma scan_to_bound (pat u : string) :
  forall n, scan_to pat u = Some n ->
            n + String.length pat <= String.length u.
Proof.
  induction u as [|c u IH]; intros n H.
  - cbn [scan_to] in H. destruct (starts_with pat "") eqn:E; [|discriminate H].
    injection H as <-. now apply starts_with_length in E.
  - cbn [scan_to] in H.
    destruct (starts_with pat (String c u)) eqn:E.
    + injection H as <-. now apply starts_with_length in E.
    + destruct (AnyCharNotNL c); [|discriminate H].
      destruct (scan_to pat u) as [m|]; [|discriminate H].
      injection H as <-. specialize (IH m eq_refl). cbn [String.length]. lia.
Qed.

Lemma take_app_le (n : nat) (a b : string) :
  n <= String.length a -> take n (a ++ b) = take n a.
Proof.
  revert a; induction n as [|n IH]; intros a H; [reflexivity|].
  destruct a as [|c a]; cbn [String.length] in H; [lia|].
  cbn [append take]. rewrite IH; [reflexivity | lia].
Qed.

(** The pass works line by line: a match never spans a line feed. *)
Lemma sh_loop_lines (p q : string) :
  forall skip,
    complete_lines p = true -> skip <= String.length p ->
    sh_loop (p ++ q) skip = sh_loop p skip ++ sh_loop q 0.
Proof.
  induction p as [|c p IH]; intros skip Hc Hs.
  - cbn [String.length] in Hs. replace skip with 0 by lia. reflexivity.
  - assert (Hp := complete_lines_tail c p Hc).
    cbn [String.length] in Hs. cbn [append].
    destruct skip as [|k].
    + rewrite !sh_loop_cons.
      destruct (Ascii.eqb dquote c) eqn:Ec.
      * destruct p as [|d p].
        { cbn [complete_lines] in Hc. apply Ascii.eqb_eq in Hc. subst c.
          discriminate Ec. }
        rewrite (scan_to_line key_close eq_refl (String d p) q
                   ltac:(discriminate) Hp).
        destruct (scan_to key_close (String d p)) as [n|] eqn:En.
        -- apply scan_to_bound in En. cbn [String.length key_close append] in En.
           rewrite (take_app_le (S n)); [| cbn [String.length]; lia].
           rewrite (IH (n + 3) Hp); [| cbn [String.length]; lia].
           now rewrite !sapp_assoc.
        -- now rewrite (IH 0 Hp ltac:(lia)).
      * now rewrite (IH 0 Hp ltac:(lia)).
    + rewrite !sh_loop_skip_one. apply (IH k Hp). lia.
Qed.

Lemma scan_to_none (pat s : string) :
  occurs pat s = false -> scan_to pat s = None.
Proof.
  induction s as [|c t IH]; intros H; cbn [occurs] in H;
    apply orb_false_iff in H as [H1 H2]; cbn [scan_to]; rewrite H1;
    [reflexivity|].
  rewrite (IH H2). now destruct (AnyCharNotNL c).
Qed.

(** Without a quoted key ending in a plus sign the pass changes
    nothing. *)
Lemma sh_loop_no_match (s : string) :
  occurs key_close s = false -> sh_loop s 0 = s.
Proof.
  induction s as [|c t IH]; intros H; [reflexivity|].
  cbn [occurs] in H. apply orb_false_iff in H as [_ H].
  rewrite sh_loop_cons, (scan_to_none key_close t H), (IH H).
  now destruct (Ascii.eqb dquote c).
Qed.

(** Without a quote followed by the open marker [unwrap] changes
    nothing. *)
Lemma unwrap_no_match (s : string) :
  occurs expr_open s = false -> unwrap s = ok s.
Proof.
  intros H. unfold unwrap, ReplaceAllFunc.
  enough (E : forall pos, replace_loop exprRegexp unwrap_func s pos 0 None
                          = (s, None)) by now rewrite E.
  induction s as [|c t IH]; intros pos; [reflexivity|].
  cbn [occurs] in H. apply orb_false_iff in H as [H1 H2].
  cbn [replace_loop]. rewrite match_at_exprRegexp, H1, (IH H2). reflexivity.
Qed.

(** ** The pipeline of [Marshal] *)

Lemma Marshal_ok (tbl : N -> bool)
      (fmt : string -> string -> string * option error) (v : value)
      (b : string) :
  marshal tbl v = ok b -> Marshal tbl fmt v = fmt "" (shorthand b).
Proof.
  intros H. unfold Marshal, jsonnetFmt. rewrite H. unfold ok, shorthand.
  now destruct (fmt "" (ReplaceAll_group1_colon superHack b)).
Qed.

Lemma Marshal_fail (tbl : N -> bool)
      (fmt : string -> string -> string * option error) (v : value)
      (b : string) (e : error) :
  marshal tbl v = (b, Some e) -> Marshal tbl fmt v = fail e.
Proof. intros H. unfold Marshal. now rewrite H. Qed.

Lemma shorthand_sh_loop (b : string) : shorthand b = sh_loop b 0.
Proof. reflexivity. Qed.

(** C1, at the input where the code departs from it: the bell character
    holds no marker pair, [wrap] quotes it with the escape of Go's syntax,
    a backslash and the letter a, which is no JSON escape, and [unwrap]
    returns the decoder's error instead of the text; through the encoder
    the same value fails to marshal. *)
Theorem unwrap_wrap_control_byte (tbl : N -> bool) :
  has_marker_pair bell = false
  /\ wrap tbl bell
     = String dquote (jsonnetEscapeOpen ++ String bslash "a"
                        ++ jsonnetEscapeClose ++ str1 dquote)
  /\ unwrap (wrap tbl bell)
     = fail (SyntaxError "invalid character in string escape code")
  /\ marshal tbl (Var bell)
     = fail (MarshalerError "Var"
               (SyntaxError "invalid character in string escape code")).
Proof. repeat split; reflexivity. Qed.




(** ** The properties at concrete inputs *)

Example ExampleMarshal_before_formatting (tbl : N -> bool) :
  Marshal tbl nop_formatter example_value = ok example_text.
Proof. reflexivity. Qed.



Lemma requiresEscaping_exact_witness :
  In "self" reserved_words /\ requiresEscaping "self" = true.
Proof.
  assert (H : In "self" reserved_words) by (simpl; tauto).
  split; [exact H|].
  exact (proj1 (proj2 (requiresEscaping_exact "self")) H).
Defined.







Lemma picky_formatter_contract :
  forall f t s e, picky_formatter f t = (s, Some e) -> s = "".
Proof.
  intros f t s e H. unfold picky_formatter in H.
  destruct (occurs "+:" t); now inversion H.
Qed.


Lemma Sum_empty_not_null_witness :
  Sum_MarshalJSON no_table (marshal no_table) None = ok "null"
  /\ @None (list value) = None.
Proof.
  split; [reflexivity|].
  exact (proj2 (proj2 (proj2 (proj2 (proj2 (Sum_empty_not_null no_table)))))
           None eq_refl).
Defined.

(** * Further properties of the package *)

(** ** Quoting of ASCII texts *)

Ltac each_ascii c H :=
  destruct c as [[|] [|] [|] [|] [|] [|] [|] [|]];
  try (exfalso; vm_compute in H; discriminate H).

Lemma quote_loop_ascii_byte (tbl : N -> bool) (c : ascii) (t : string) :
  ascii_byte c = true ->
  strconv.quote_loop tbl (String c t) 0
  = go_escape c ++ strconv.quote_loop tbl t 0.
Proof. intros H. each_ascii c H; reflexivity. Qed.

Lemma ascii_escape_shape (c : ascii) :
  ascii_byte c = true ->
  plain (go_escape c) = true
  /\ (forall prev t,
        qsafe prev (go_escape c ++ t) = qsafe (last_byte (go_escape c) prev) t)
  /\ all_bytes not_newline (go_escape c) = true.
Proof.
  intros H. each_ascii c H;
    (split; [reflexivity | split; [intros prev t; reflexivity | reflexivity]]).
Qed.

(** The escape [%q] writes for an ASCII byte that is not plain is no
    escape of JSON. *)
Lemma scan_bad_escape (c : ascii) (t : string) :
  ascii_byte c = true -> plain_byte c = false ->
  json.scan_string (go_escape c ++ t) json.InString = Some bad_escape.
Proof.
  intros H H'. each_ascii c H;
    try (exfalso; vm_compute in H'; discriminate H'); reflexivity.
Qed.

Lemma ascii_text_cons (c : ascii) (s : string) :
  ascii_text (String c s) = ascii_byte c && ascii_text s.
Proof. reflexivity. Qed.

Lemma ascii_text_app (a b : string) :
  ascii_text (a ++ b) = ascii_text a && ascii_text b.
Proof. apply all_bytes_app. Qed.

Lemma quote_loop_ascii (tbl : N -> bool) (s t : string) :
  ascii_text s = true ->
  strconv.quote_loop tbl (s ++ t) 0
  = esc_map go_escape s ++ strconv.quote_loop tbl t 0.
Proof.
  induction s as [|c s IH]; intros Hs; [reflexivity|].
  rewrite ascii_text_cons in Hs. apply andb_prop in Hs as [Hc Hs].
  cbn [append esc_map]. rewrite (quote_loop_ascii_byte tbl c _ Hc), (IH Hs).
  now rewrite sapp_assoc.
Qed.

Lemma plain_esc_ascii (s : string) :
  ascii_text s = true -> plain (esc_map go_escape s) = true.
Proof.
  induction s as [|c s IH]; intros Hs; [reflexivity|].
  rewrite ascii_text_cons in Hs. apply andb_prop in Hs as [Hc Hs].
  cbn [esc_map]. destruct (ascii_escape_shape c Hc) as [Hp _].
  now rewrite plain_app, Hp, (IH Hs).
Qed.

Lemma qsafe_esc_ascii (s : string) :
  ascii_text s = true ->
  forall prev t,
  exists prev', qsafe prev (esc_map go_escape s ++ t) = qsafe prev' t.
Proof.
  induction s as [|c s IH]; intros Hs prev t; [now exists prev|].
  rewrite ascii_text_cons in Hs. apply andb_prop in Hs as [Hc Hs].
  cbn [esc_map]. rewrite sapp_assoc.
  destruct (ascii_escape_shape c Hc) as [_ [Hq _]]. rewrite Hq.
  apply (IH Hs).
Qed.

Lemma newline_esc_ascii (s : string) :
  ascii_text s = true -> all_bytes not_newline (esc_map go_escape s) = true.
Proof.
  induction s as [|c s IH]; intros Hs; [reflexivity|].
  rewrite ascii_text_cons in Hs. apply andb_prop in Hs as [Hc Hs].
  cbn [esc_map]. destruct (ascii_escape_shape c Hc) as [_ [_ Hn]].
  now rewrite all_bytes_app, Hn, (IH Hs).
Qed.

(** [%q] on an ASCII text: the escapes of its bytes in quotes, a plain
    text whatever the bytes. *)
Lemma quoted_ascii (tbl : N -> bool) (s : string) :
  ascii_text s = true ->
  quoted tbl s = String dquote (esc_map go_escape s ++ str1 dquote)
  /\ plain (quoted tbl s) = true.
Proof.
  intros Hs.
  assert (E : quoted tbl s = String dquote (esc_map go_escape s ++ str1 dquote)).
  { unfold quoted, strconv.Quote.
    rewrite <- (sapp_nil_r s) at 1.
    rewrite (quote_loop_ascii tbl s "" Hs). cbn [strconv.quote_loop].
    now rewrite sapp_nil_r. }
  split; [exact E|].
  rewrite E, plain_cons, plain_app, (plain_esc_ascii s Hs). reflexivity.
Qed.

Lemma wrap_ascii (tbl : N -> bool) (x : string) :
  ascii_text x = true ->
  wrap tbl x = expr_open ++ esc_map go_escape x ++ expr_close.
Proof.
  intros Hx. unfold wrap, strconv.Quote.
  rewrite <- (sapp_nil_r (jsonnetEscapeOpen ++ x ++ jsonnetEscapeClose)).
  rewrite (quote_loop_ascii tbl _ "").
  - rewrite !esc_map_app. cbn [strconv.quote_loop].
    rewrite sapp_nil_r, !sapp_assoc. reflexivity.
  - now rewrite !ascii_text_app, Hx.
Qed.

Lemma bare_byte_escape (c : ascii) :
  bare_byte c = true -> go_escape c = str1 c /\ ascii_byte c = true.
Proof. intros H. each_ascii c H; split; reflexivity. Qed.

Lemma bare_escape (s : string) :
  all_bytes bare_byte s = true ->
  esc_map go_escape s = s /\ ascii_text s = true.
Proof.
  induction s as [|c s IH]; intros Hs; [split; reflexivity|].
  cbn [all_bytes] in Hs. apply andb_prop in Hs as [Hc Hs].
  destruct (bare_byte_escape c Hc) as [Ec Ac]. destruct (IH Hs) as [Es As].
  cbn [esc_map]. rewrite ascii_text_cons, Ec, Es, Ac, As. split; reflexivity.
Qed.

Lemma plain_ascii_byte (c : ascii) :
  plain_byte c = true -> ascii_byte c = true.
Proof. intros H. each_ascii c H; reflexivity. Qed.

Lemma plain_ascii (s : string) : plain s = true -> ascii_text s = true.
Proof.
  induction s as [|c s IH]; intros Hs; [reflexivity|].
  rewrite plain_cons in Hs. apply andb_prop in Hs as [Hc Hs].
  now rewrite ascii_text_cons, (plain_ascii_byte c Hc), (IH Hs).
Qed.

(** ** [unwrap] on a document *)

(** The replacement at a wrapped literal that heads the text: the callback
    gets the whole literal and the loop goes on behind it. *)
Lemma replace_wrapped (B rest out : string) (st e : option error) :
  all_bytes not_newline B = true ->
  qsafe "x" (B ++ jsonnetEscapeClose) = true ->
  unwrap_func st (expr_open ++ B ++ expr_close) (Some B) = (out, e) ->
  replace_loop exprRegexp unwrap_func
    (expr_open ++ B ++ expr_close ++ rest) 0 0 st
  = let '(r, st') := replace_loop exprRegexp unwrap_func rest 0 0 e in
    (out ++ r, st').
Proof.
  intros Hn Hq Hw.
  assert (Hm := match_wrapped B rest "x"%char 0 Hn Hq).
  assert (Hlen : String.length (expr_open ++ B ++ expr_close)
                 = S (String.length B + 23)).
  { rewrite !slength_app. simpl. lia. }
  replace (expr_open ++ B ++ expr_close ++ rest)
    with ((expr_open ++ B ++ expr_close) ++ rest) in *
    by (rewrite !sapp_assoc; reflexivity).
  remember (expr_open ++ B ++ expr_close) as W eqn:HW.
  destruct W as [|q W']; [discriminate Hlen|].
  cbn [append replace_loop].
  cbn [append] in Hm. rewrite Hm.
  replace (String.length B + 24) with (S (String.length B + 23)) by lia.
  injection Hlen as Hlen.
  change (String q (W' ++ rest)) with (String q W' ++ rest).
  rewrite <- Hlen at 1.
  change (S (String.length W')) with (String.length (String q W')).
  rewrite take_app, Hw.
  rewrite <- Hlen, replace_loop_skip.
  now rewrite (replace_loop_pos _ exprRegexp unwrap_func exprRegexp_pos
                 rest _ 0 0 e).
Qed.

Lemma starts_with_before_quote (p u t : string) :
  all_bytes not_quote p = true ->
  starts_with p (u ++ String dquote t) = starts_with p u.
Proof.
  revert u; induction p as [|a p IH]; intros u Hp; [reflexivity|].
  cbn [all_bytes] in Hp. apply andb_prop in Hp as [Ha Hp].
  destruct u as [|c u]; cbn [append starts_with].
  - unfold not_quote in Ha. apply negb_true_iff in Ha. now rewrite Ha.
  - now rewrite (IH u Hp).
Qed.

(** Text in which no quote is followed by the open marker is copied up to
    the next quote behind it. *)
Lemma replace_before_quote (pre tail : string) (st : option error) :
  occurs expr_open pre = false ->
  forall pos,
    replace_loop exprRegexp unwrap_func (pre ++ String dquote tail) pos 0 st
    = let '(r, st') :=
        replace_loop exprRegexp unwrap_func (String dquote tail) 0 0 st in
      (pre ++ r, st').
Proof.
  remember (replace_loop exprRegexp unwrap_func (String dquote tail) 0 0 st)
    as R eqn:HR.
  induction pre as [|c pre IH]; intros H pos.
  - cbn [append].
    rewrite (replace_loop_pos _ exprRegexp unwrap_func exprRegexp_pos
               (String dquote tail) pos 0 0 st), <- HR.
    now destruct R.
  - cbn [occurs] in H. apply orb_false_iff in H as [H0 H].
    cbn [append replace_loop]. rewrite match_at_exprRegexp.
    change (String c (pre ++ String dquote tail))
      with (String c pre ++ String dquote tail).
    unfold expr_open at 1. cbn [starts_with append].
    rewrite (starts_with_before_quote jsonnetEscapeOpen pre tail eq_refl).
    change (Ascii.eqb dquote c && starts_with jsonnetEscapeOpen pre)
      with (starts_with expr_open (String c pre)).
    rewrite H0, (IH H (S pos)).
    now destruct R.
Qed.

(** ** Operands that fail *)

Lemma Sum_loop_fail (m : value -> ret) (pre : list value)
      (frags : list string) (e : value) (post : list value)
      (b : string) (err : error) :
  Forall2 (fun v f => m v = ok f) pre frags ->
  m e = (b, Some err) ->
  forall l, Sum_loop m (pre ++ e :: post)%list l = ([], Some err).
Proof.
  intros H He. induction H as [|v f pre frags Hv _ IH]; intros l;
    cbn [Sum_loop app].
  - now rewrite He.
  - rewrite Hv. unfold ok. apply IH.
Qed.

(** ** Trimming an identifier *)

Lemma all_bytes_rev_onto (p : ascii -> bool) (s acc : string) :
  all_bytes p (rev_onto s acc) = all_bytes p s && all_bytes p acc.
Proof.
  revert acc; induction s as [|c s IH]; intros acc; [reflexivity|].
  cbn [rev_onto all_bytes]. rewrite IH. cbn [all_bytes].
  now rewrite andb_assoc, (andb_comm (all_bytes p s) (p c)).
Qed.

Lemma all_bytes_srev (p : ascii -> bool) (s : string) :
  all_bytes p (srev s) = all_bytes p s.
Proof. unfold srev. rewrite all_bytes_rev_onto. apply andb_true_r. Qed.

Lemma srev_cons (c : ascii) (s : string) :
  srev (String c s) = srev s ++ str1 c.
Proof. unfold srev at 1. cbn [rev_onto]. apply rev_onto_spec. Qed.

Lemma srev_involutive (s : string) : srev (srev s) = s.
Proof.
  induction s as [|c s IH]; [reflexivity|].
  now rewrite srev_cons, srev_app, IH.
Qed.

Lemma trim_left_id (c : ascii) (t : string) :
  id_char c = true -> trim_left (String c t) 0 = String c t.
Proof. intros H. each_ascii c H; reflexivity. Qed.

Lemma trim_left_rev_id (c : ascii) (t : string) :
  id_char c = true -> trim_left_rev (String c t) 0 = String c t.
Proof. intros H. each_ascii c H; reflexivity. Qed.

(** [bytes.TrimSpace] takes the newline of [Encode] off an identifier. *)
Lemma TrimSpace_ident (x : string) :
  all_bytes id_char x = true -> x <> "" -> TrimSpace (x ++ nl) = x.
Proof.
  intros Hx Hne. unfold TrimSpace.
  destruct x as [|c x]; [contradiction|].
  assert (Hc : id_char c = true)
    by (cbn [all_bytes] in Hx; now apply andb_prop in Hx).
  cbn [append]. rewrite (trim_left_id c _ Hc).
  change (String c (x ++ nl)) with (String c x ++ nl).
  rewrite srev_app.
  change (srev nl) with nl. cbn [nl str1 append].
  change (trim_left_rev (String newline (srev (String c x))) 0)
    with (trim_left_rev (srev (String c x)) 0).
  assert (Hr : all_bytes id_char (srev (String c x)) = true)
    by now rewrite all_bytes_srev.
  destruct (srev (String c x)) as [|d r] eqn:E.
  - apply (f_equal String.length) in E. rewrite srev_length in E.
    discriminate E.
  - cbn [all_bytes] in Hr. apply andb_prop in Hr as [Hd _].
    rewrite (trim_left_rev_id d r Hd), <- E. apply srev_involutive.
Qed.

(** ** [wrap] and [unwrap] *)

(** [unwrap] behind a wrapped expression that heads the text, either in
    the form [wrap] writes or in the form the encoder copies. *)
Lemma unwrap_literal (e : ascii -> string) (He : good_escape e)
      (pre x rest : string) :
  occurs expr_open pre = false ->
  plain x = true ->
  unwrap (pre ++ expr_open ++ esc_map e x ++ expr_close ++ rest)
  = match unwrap rest with
    | (r, None) => ok (pre ++ x ++ r)
    | (_, Some err) => fail err
    end.
Proof.
  intros Hpre Hx.
  destruct (qsafe_esc_map e He _ Hx "x"%char jsonnetEscapeClose) as [prev' Hq].
  assert (Hq' : qsafe "x" (esc_map e x ++ jsonnetEscapeClose) = true)
    by (rewrite Hq; reflexivity).
  assert (R := replace_wrapped (esc_map e x) rest x None None
                 (newline_esc_map e He _ Hx) Hq'
                 (unwrap_func_wrapped e He x (Some (esc_map e x)) Hx)).
  unfold unwrap, ReplaceAllFunc.
  unfold expr_open at 1. cbn [append].
  rewrite (replace_before_quote pre _ None Hpre 0).
  change (String dquote (jsonnetEscapeOpen ++ esc_map e x ++ expr_close ++ rest))
    with (expr_open ++ esc_map e x ++ expr_close ++ rest).
  rewrite R.
  destruct (replace_loop exprRegexp unwrap_func rest 0 0 None) as [r [err|]];
    reflexivity.
Qed.

(** X1: on a text of printable ASCII bytes and the controls that JSON
    has an escape for, [unwrap] undoes [wrap], also when the text holds the
    two markers itself; and so it does on the copy of the literal that the
    encoder makes, in which the angle brackets and the ampersand are
    escaped anew. *)
Theorem wrap_unwrap_round_trip (tbl : N -> bool) (x : string) :
  plain x = true ->
  unwrap (wrap tbl x) = ok x
  /\ exists c, json.compact (wrap tbl x) = ok c /\ unwrap c = ok x.
Proof.
  intros Hx. split.
  - rewrite (wrap_plain tbl x Hx), <- (sapp_nil_r expr_close).
    assert (U := unwrap_literal go_escape go_escape_good "" x "" eq_refl Hx).
    cbn [append] in U. rewrite U, unwrap_nil. unfold ok. now rewrite sapp_nil_r.
  - exists (expr_open ++ esc_map json_escape x ++ expr_close).
    split; [apply (compact_wrapped tbl x Hx)|].
    rewrite <- (sapp_nil_r expr_close).
    assert (U := unwrap_literal json_escape json_escape_good "" x "" eq_refl Hx).
    cbn [append] in U. rewrite U, unwrap_nil. unfold ok. now rewrite sapp_nil_r.
Qed.

Lemma wrap_unwrap_round_trip_witness :
  plain ("if a < b && c then " ++ jsonnetEscapeOpen ++ lit "'x\y'"
           ++ jsonnetEscapeClose ++ nl) = true
  /\ unwrap (wrap no_table
               ("if a < b && c then " ++ jsonnetEscapeOpen ++ lit "'x\y'"
                  ++ jsonnetEscapeClose ++ nl))
     = ok ("if a < b && c then " ++ jsonnetEscapeOpen ++ lit "'x\y'"
             ++ jsonnetEscapeClose ++ nl).
Proof.
  split; [reflexivity|].
  apply (wrap_unwrap_round_trip no_table
           ("if a < b && c then " ++ jsonnetEscapeOpen ++ lit "'x\y'"
              ++ jsonnetEscapeClose ++ nl)).
  reflexivity.
Defined.

Lemma first_not_plain (x : string) :
  ascii_text x = true -> plain x = false ->
  exists a c b,
    x = a ++ String c b /\ plain a = true
    /\ ascii_byte c = true /\ plain_byte c = false.
Proof.
  induction x as [|c x IH]; intros Ha Hp; [discriminate Hp|].
  rewrite ascii_text_cons in Ha. apply andb_prop in Ha as [Hc Ha].
  rewrite plain_cons in Hp.
  destruct (plain_byte c) eqn:Pc.
  - destruct (IH Ha Hp) as (a & d & b & E & Pa & Ad & Pd).
    exists (String c a), d, b. rewrite E, plain_cons, Pc, Pa. now repeat split.
  - exists "", c, x. now repeat split.
Qed.

Lemma scan_wrapped_bad (x t : string) :
  ascii_text x = true -> plain x = false ->
  json.scan_string (jsonnetEscapeOpen ++ esc_map go_escape x ++ t) json.InString
  = Some bad_escape.
Proof.
  intros Ha Hp. destruct (first_not_plain x Ha Hp) as (a & c & b & E & Pa & Ac & Pc).
  subst x. rewrite scan_open, esc_map_app, sapp_assoc.
  rewrite (scan_esc_map go_escape go_escape_good a Pa).
  cbn [esc_map]. rewrite sapp_assoc. apply (scan_bad_escape c _ Ac Pc).
Qed.

(** X2: on an ASCII text with a byte that is neither printable nor one of
    backspace, tab, newline, form feed and carriage return, [wrap] writes a
    literal that is no JSON: [unwrap] of it returns the decoder's error and
    no text, and [Marshal] of a [Var] with such a text fails in the encoder,
    before the formatter is called. *)
Theorem wrap_rejects_control_bytes (tbl : N -> bool) (x : string) :
  ascii_text x = true -> plain x = false ->
  unwrap (wrap tbl x) = fail bad_escape
  /\ marshal tbl (Var x) = fail (MarshalerError "Var" bad_escape)
  /\ forall fmt, Marshal tbl fmt (Var x) = fail (MarshalerError "Var" bad_escape).
Proof.
  intros Ha Hp.
  assert (Hm : marshal tbl (Var x) = fail (MarshalerError "Var" bad_escape)).
  { unfold marshal, marshal_with. cbn [encode].
    unfold Var_MarshalJSON, marshalerEncoder, ok at 1.
    unfold json.compact, json.checkValid.
    rewrite (wrap_ascii tbl x Ha). unfold expr_open at 1. cbn [append].
    rewrite Ascii.eqb_refl, (scan_wrapped_bad x expr_close Ha Hp).
    reflexivity. }
  split; [|split; [exact Hm | intros fmt; apply (Marshal_fail tbl fmt _ _ _ Hm)]].
  rewrite (wrap_ascii tbl x Ha).
  destruct (qsafe_esc_ascii x Ha "x"%char jsonnetEscapeClose) as [prev' Hq].
  assert (Hq' : qsafe "x" (esc_map go_escape x ++ jsonnetEscapeClose) = true)
    by (rewrite Hq; reflexivity).
  assert (Hw : unwrap_func None
                 (expr_open ++ esc_map go_escape x ++ expr_close)
                 (Some (esc_map go_escape x)) = ("", Some bad_escape)).
  { unfold unwrap_func, json.Unmarshal, json.checkValid.
    unfold expr_open at 1. cbn [append]. rewrite Ascii.eqb_refl.
    rewrite (scan_wrapped_bad x expr_close Ha Hp). reflexivity. }
  assert (R := replace_wrapped (esc_map go_escape x) "" "" None
                 (Some bad_escape) (newline_esc_ascii x Ha) Hq' Hw).
  unfold unwrap, ReplaceAllFunc.
  rewrite <- (sapp_nil_r expr_close), R. reflexivity.
Qed.

Lemma wrap_rejects_control_bytes_witness :
  ascii_text ("a" ++ str1 "011"%char ++ "b") = true
  /\ plain ("a" ++ str1 "011"%char ++ "b") = false
  /\ unwrap (wrap no_table ("a" ++ str1 "011"%char ++ "b")) = fail bad_escape.
Proof.
  split; [reflexivity|]. split; [reflexivity|].
  apply (wrap_rejects_control_bytes no_table ("a" ++ str1 "011"%char ++ "b"));
    reflexivity.
Defined.

(** X3: [unwrap] replaces a wrapped expression where it stands: the text
    before it, in which no quote is followed by the open marker, is kept,
    the literal gives way to the expression, and the text behind it is
    unwrapped in its turn; so two literals side by side are two matches,
    not one from the first open marker to the last close marker. *)
Theorem unwrap_in_place (tbl : N -> bool) (pre x rest : string) :
  occurs expr_open pre = false ->
  plain x = true ->
  unwrap (pre ++ wrap tbl x ++ rest)
  = match unwrap rest with
    | (r, None) => ok (pre ++ x ++ r)
    | (_, Some err) => fail err
    end
  /\ forall y, plain y = true ->
       unwrap (pre ++ wrap tbl x ++ wrap tbl y) = ok (pre ++ x ++ y).
Proof.
  intros Hpre Hx.
  assert (E : forall rest,
             unwrap (pre ++ wrap tbl x ++ rest)
             = match unwrap rest with
               | (r, None) => ok (pre ++ x ++ r)
               | (_, Some err) => fail err
               end).
  { intros r. rewrite (wrap_plain tbl x Hx), !sapp_assoc.
    apply (unwrap_literal go_escape go_escape_good pre x r Hpre Hx). }
  split; [apply E|].
  intros y Hy. rewrite E, (wrap_plain tbl y Hy), <- (sapp_nil_r expr_close).
  assert (U := unwrap_literal go_escape go_escape_good "" y "" eq_refl Hy).
  cbn [append] in U. rewrite U, unwrap_nil. unfold ok. now rewrite sapp_nil_r.
Qed.

Lemma unwrap_in_place_witness :
  occurs expr_open (lit "{'k': ") = false
  /\ plain "a + b" = true
  /\ unwrap (lit "{'k': " ++ wrap no_table "a + b" ++ lit ", 'n': 1}")
     = ok (lit "{'k': a + b, 'n': 1}").
Proof.
  split; [reflexivity|]. split; [reflexivity|].
  apply (unwrap_in_place no_table (lit "{'k': ") "a + b" (lit ", 'n': 1}"));
    reflexivity.
Defined.

(** X4: a value whose structural encoding holds no quote followed by the
    open marker comes out of [marshal] as that encoding and the newline of
    [Encode]: [unwrap] finds nothing to replace and reports no error. *)
Theorem marshal_without_marker (tbl : N -> bool) (v : value) (doc : string) :
  encode tbl v 0 = ok doc ->
  occurs expr_open (doc ++ nl) = false ->
  unwrap (doc ++ nl) = ok (doc ++ nl)
  /\ marshal tbl v = ok (doc ++ nl).
Proof.
  intros He Hx.
  assert (U := unwrap_no_match (doc ++ nl) Hx).
  split; [exact U|].
  unfold marshal, marshal_with. rewrite He. unfold ok at 1. exact U.
Qed.

Lemma marshal_without_marker_witness :
  encode no_table (GoSlice [GoString "see %%%jsonnet x tennojs%%%"; GoInt 1]) 0
  = ok (lit "[" ++ nl ++ lit "    'see %%%jsonnet x tennojs%%%'," ++ nl
          ++ "    1" ++ nl ++ "]")
  /\ marshal no_table (GoSlice [GoString "see %%%jsonnet x tennojs%%%"; GoInt 1])
     = ok ((lit "[" ++ nl ++ lit "    'see %%%jsonnet x tennojs%%%'," ++ nl
              ++ "    1" ++ nl ++ "]") ++ nl).
Proof.
  split; [reflexivity|].
  apply (marshal_without_marker no_table
           (GoSlice [GoString "see %%%jsonnet x tennojs%%%"; GoInt 1])
           (lit "[" ++ nl ++ lit "    'see %%%jsonnet x tennojs%%%'," ++ nl
              ++ "    1" ++ nl ++ "]")); reflexivity.
Defined.

(** ** The expression nodes *)

(** X5: the three import nodes render as the keyword and the path quoted
    by [%q] in parentheses, for every ASCII path, control bytes included:
    the escapes of [%q] are wrapped a second time by [wrap], and the
    escapes of the second time are valid JSON.  A path of printable bytes
    without quote and backslash stands in the quotes as it is. *)
Theorem Import_renders (tbl : N -> bool) (s : string) :
  ascii_text s = true ->
  marshal tbl (Import s) = ok (("(import " ++ quoted tbl s ++ ")") ++ nl)
  /\ marshal tbl (ImportStr s)
     = ok (("(importstr " ++ quoted tbl s ++ ")") ++ nl)
  /\ marshal tbl (ImportBin s)
     = ok (("(importbin " ++ quoted tbl s ++ ")") ++ nl)
  /\ quoted tbl s = String dquote (esc_map go_escape s ++ str1 dquote)
  /\ (all_bytes bare_byte s = true ->
      quoted tbl s = String dquote (s ++ str1 dquote)).
Proof.
  intros Hs. destruct (quoted_ascii tbl s Hs) as [Eq Pq].
  repeat split.
  - apply (marshal_wrapped tbl (Import s) "Import" ("(import " ++ quoted tbl s ++ ")")).
    + now rewrite !plain_app, Pq.
    + reflexivity.
  - apply (marshal_wrapped tbl (ImportStr s) "ImportStr"
             ("(importstr " ++ quoted tbl s ++ ")")).
    + now rewrite !plain_app, Pq.
    + reflexivity.
  - apply (marshal_wrapped tbl (ImportBin s) "ImportBin"
             ("(importbin " ++ quoted tbl s ++ ")")).
    + now rewrite !plain_app, Pq.
    + reflexivity.
  - exact Eq.
  - intros Hb. destruct (bare_escape s Hb) as [Eb _]. now rewrite Eq, Eb.
Qed.

Lemma Import_renders_witness :
  ascii_text ("lib/a" ++ bell ++ lit "'b.libsonnet") = true
  /\ marshal no_table (Import ("lib/a" ++ bell ++ lit "'b.libsonnet"))
     = ok (String "("%char ("import " ++ String dquote "lib/a"
             ++ String bslash "a" ++ String bslash (lit "'b.libsonnet')")) ++ nl).
Proof.
  split; [reflexivity|].
  apply (Import_renders no_table ("lib/a" ++ bell ++ lit "'b.libsonnet")).
  reflexivity.
Defined.

(** X6: a [Var] renders as its text, byte for byte, when the text is made
    of printable ASCII bytes and the controls that JSON has an escape for;
    [Marshal] hands that text and the newline of [Encode] to the shorthand
    pass and the formatter like any other document. *)
Theorem Var_renders_verbatim (tbl : N -> bool) (x : string) :
  plain x = true ->
  marshal tbl (Var x) = ok (x ++ nl)
  /\ forall fmt, Marshal tbl fmt (Var x) = fmt "" (shorthand (x ++ nl)).
Proof.
  intros Hx.
  assert (Hm : marshal tbl (Var x) = ok (x ++ nl))
    by (apply (marshal_wrapped tbl (Var x) "Var" x Hx); reflexivity).
  split; [exact Hm|].
  intros fmt. apply (Marshal_ok tbl fmt (Var x) _ Hm).
Qed.

Lemma Var_renders_verbatim_witness :
  plain (lit "std.map(function(x) x < 3 && 'a\b' != x, [1, 2])") = true
  /\ marshal no_table
       (Var (lit "std.map(function(x) x < 3 && 'a\b' != x, [1, 2])"))
     = ok (lit "std.map(function(x) x < 3 && 'a\b' != x, [1, 2])" ++ nl).
Proof.
  split; [reflexivity|].
  apply (Var_renders_verbatim no_table
           (lit "std.map(function(x) x < 3 && 'a\b' != x, [1, 2])")).
  reflexivity.
Defined.

(** X7: the nodes that quote a name by [%q] render every ASCII name,
    control bytes included: [Self] and [Member] always in brackets, [Super]
    in brackets when [requiresEscaping] holds and behind a dot otherwise. *)
Theorem quoted_names_render (tbl : N -> bool) (s : string) :
  ascii_text s = true ->
  marshal tbl (Self s) = ok (("self[" ++ quoted tbl s ++ "]") ++ nl)
  /\ marshal tbl (Super s)
     = ok ((if requiresEscaping s
            then "super[" ++ quoted tbl s ++ "]"
            else "super." ++ s) ++ nl)
  /\ forall LHS l,
       marshal tbl LHS = ok l -> plain (TrimSpace l) = true ->
       marshal tbl (Member LHS s)
       = ok ((TrimSpace l ++ "[" ++ quoted tbl s ++ "]") ++ nl).
Proof.
  intros Hs. destruct (quoted_ascii tbl s Hs) as [_ Pq].
  split; [|split].
  - apply (marshal_wrapped tbl (Self s) "Self" ("self[" ++ quoted tbl s ++ "]")).
    + now rewrite !plain_app, Pq.
    + reflexivity.
  - apply (marshal_wrapped tbl (Super s) "Super").
    + destruct (requiresEscaping s) eqn:R.
      * now rewrite !plain_app, Pq.
      * destruct (ident_escape s (ident_all_bytes s R)) as [_ Ps].
        now rewrite plain_app, Ps.
    + cbn [encode]. unfold Super_MarshalJSON.
      now destruct (requiresEscaping s).
  - intros LHS l Hl Pl.
    apply (marshal_wrapped tbl (Member LHS s) "Member").
    + now rewrite !plain_app, Pl, Pq.
    + cbn [encode]. change (marshal_with (encode tbl)) with (marshal tbl).
      unfold Member_MarshalJSON. now rewrite Hl.
Qed.

Lemma quoted_names_render_witness :
  ascii_text ("a" ++ bell ++ "b") = true
  /\ marshal no_table (Self ("a" ++ bell ++ "b"))
     = ok (("self[" ++ String dquote ("a" ++ String bslash "ab")
              ++ String dquote "]") ++ nl).
Proof.
  split; [reflexivity|].
  apply (quoted_names_render no_table ("a" ++ bell ++ "b")). reflexivity.
Defined.

(** X8: the loop of [Sum.MarshalJSON] stops at the first element whose
    rendering fails: the method returns that element's error and no text,
    whatever the elements behind it are, and [marshal] and [Marshal] of
    the [Sum] return the error inside a [MarshalerError] of the encoder. *)
Theorem Sum_first_error (tbl : N -> bool) (pre : list value)
        (frags : list string) (e : value) (post : list value)
        (b : string) (err : error) :
  Forall2 (fun v f => marshal tbl v = ok f) pre frags ->
  marshal tbl e = (b, Some err) ->
  Sum_MarshalJSON tbl (marshal tbl) (Some (pre ++ e :: post)%list) = fail err
  /\ marshal tbl (Sum (Some (pre ++ e :: post)%list))
     = fail (MarshalerError "Sum" err)
  /\ forall fmt,
       Marshal tbl fmt (Sum (Some (pre ++ e :: post)%list))
       = fail (MarshalerError "Sum" err).
Proof.
  intros Hpre He.
  assert (E : Sum_MarshalJSON tbl (marshal tbl) (Some (pre ++ e :: post)%list)
              = fail err).
  { unfold Sum_MarshalJSON.
    now rewrite (Sum_loop_fail (marshal tbl) pre frags e post b err Hpre He). }
  assert (M : marshal tbl (Sum (Some (pre ++ e :: post)%list))
              = fail (MarshalerError "Sum" err)).
  { unfold marshal at 1, marshal_with. cbn [encode].
    change (marshal_with (encode tbl)) with (marshal tbl).
    now rewrite E. }
  split; [exact E|]. split; [exact M|].
  intros fmt. apply (Marshal_fail tbl fmt _ _ _ M).
Qed.

Lemma Sum_first_error_witness :
  Forall2 (fun v f => marshal no_table v = ok f)
    [GoInt 40; Var "x"] ["40" ++ nl; "x" ++ nl]
  /\ marshal no_table (Var bell) = fail (MarshalerError "Var" bad_escape)
  /\ marshal no_table (Sum (Some [GoInt 40; Var "x"; Var bell; GoString "foo"]))
     = fail (MarshalerError "Sum" (MarshalerError "Var" bad_escape)).
Proof.
  assert (H : Forall2 (fun v f => marshal no_table v = ok f)
                [GoInt 40; Var "x"] ["40" ++ nl; "x" ++ nl])
    by (repeat constructor).
  split; [exact H|]. split; [reflexivity|].
  apply (Sum_first_error no_table [GoInt 40; Var "x"] ["40" ++ nl; "x" ++ nl]
           (Var bell) [GoString "foo"] ""
           (MarshalerError "Var" bad_escape) H eq_refl).
Defined.

(** X9: [Index] and [Member] render the left side first and give up on
    its error; [Index] renders the right side only then, and gives up on
    that error; in both cases the node has no text and [marshal] returns
    the error inside a [MarshalerError]. *)
Theorem operand_errors_surface (tbl : N -> bool) (LHS RHS : value)
        (Field b : string) (err : error) :
  (marshal tbl LHS = (b, Some err) ->
   Index_MarshalJSON tbl (marshal tbl) LHS RHS = fail err
   /\ marshal tbl (Index LHS RHS) = fail (MarshalerError "Index" err)
   /\ Member_MarshalJSON tbl (marshal tbl) LHS Field = fail err
   /\ marshal tbl (Member LHS Field) = fail (MarshalerError "Member" err))
  /\ (forall l,
        marshal tbl LHS = ok l -> marshal tbl RHS = (b, Some err) ->
        Index_MarshalJSON tbl (marshal tbl) LHS RHS = fail err
        /\ marshal tbl (Index LHS RHS) = fail (MarshalerError "Index" err)).
Proof.
  split.
  - intros Hl.
    assert (EI : Index_MarshalJSON tbl (marshal tbl) LHS RHS = fail err)
      by (unfold Index_MarshalJSON; now rewrite Hl).
    assert (EM : Member_MarshalJSON tbl (marshal tbl) LHS Field = fail err)
      by (unfold Member_MarshalJSON; now rewrite Hl).
    repeat split; [exact EI | | exact EM | ].
    + unfold marshal at 1, marshal_with. cbn [encode].
      change (marshal_with (encode tbl)) with (marshal tbl). now rewrite EI.
    + unfold marshal at 1, marshal_with. cbn [encode].
      change (marshal_with (encode tbl)) with (marshal tbl). now rewrite EM.
  - intros l Hl Hr.
    assert (EI : Index_MarshalJSON tbl (marshal tbl) LHS RHS = fail err)
      by (unfold Index_MarshalJSON; now rewrite Hl, Hr).
    split; [exact EI|].
    unfold marshal at 1, marshal_with. cbn [encode].
    change (marshal_with (encode tbl)) with (marshal tbl). now rewrite EI.
Qed.

(** X10: a document in which no plus sign is followed by a quote and a
    colon goes to the formatter as [marshal] returned it: the shorthand
    pass of [Marshal] changes nothing in it. *)
Theorem Marshal_without_plus_key (tbl : N -> bool)
        (fmt : string -> string -> string * option error)
        (v : value) (b : string) :
  marshal tbl v = ok b ->
  occurs key_close b = false ->
  shorthand b = b /\ Marshal tbl fmt v = fmt "" b.
Proof.
  intros Hm Hk.
  assert (E : shorthand b = b)
    by (rewrite shorthand_sh_loop; apply (sh_loop_no_match b Hk)).
  split; [exact E|].
  now rewrite (Marshal_ok tbl fmt v b Hm), E.
Qed.

Lemma Marshal_without_plus_key_witness :
  marshal no_table (GoStruct [("a+b", Sum (Some [Var "x"; GoString "+"]))])
  = ok (lit "{" ++ nl ++ lit "    'a+b': x+'+'" ++ nl ++ "}" ++ nl)
  /\ Marshal no_table nop_formatter
       (GoStruct [("a+b", Sum (Some [Var "x"; GoString "+"]))])
     = ok (lit "{" ++ nl ++ lit "    'a+b': x+'+'" ++ nl ++ "}" ++ nl).
Proof.
  split; [reflexivity|].
  apply (Marshal_without_plus_key no_table nop_formatter
           (GoStruct [("a+b", Sum (Some [Var "x"; GoString "+"]))])
           (lit "{" ++ nl ++ lit "    'a+b': x+'+'" ++ nl ++ "}" ++ nl));
    reflexivity.
Defined.

Lemma operand_errors_surface_witness :
  marshal no_table (Var bell) = fail (MarshalerError "Var" bad_escape)
  /\ marshal no_table (Member (Var bell) "f")
     = fail (MarshalerError "Member" (MarshalerError "Var" bad_escape))
  /\ marshal no_table (Index (Var "a") (Var bell))
     = fail (MarshalerError "Index" (MarshalerError "Var" bad_escape)).
Proof.
  split; [reflexivity|]. split.
  - apply (operand_errors_surface no_table (Var bell) GoNil "f" ""
             (MarshalerError "Var" bad_escape)). reflexivity.
  - apply (proj2 (operand_errors_surface no_table (Var "a") (Var bell) "f" ""
                    (MarshalerError "Var" bad_escape)) ("a" ++ nl));
      reflexivity.
Defined.

(** ** Identifiers as operands *)

Lemma plain_Join (xs : list string) (sep : string) :
  Forall (fun x => plain x = true) xs -> plain sep = true ->
  plain (Join xs sep) = true.
Proof.
  intros H Hs. induction H as [|x xs Hx _ IH]; [reflexivity|].
  destruct xs as [|y ys]; [exact Hx|].
  change (Join (x :: y :: ys) sep) with (x ++ sep ++ Join (y :: ys) sep).
  now rewrite !plain_app, Hx, Hs, IH.
Qed.

Lemma ident_plain (s : string) :
  requiresEscaping s = false -> plain s = true /\ s <> "".
Proof.
  intros R. destruct (ident_escape s (ident_all_bytes s R)) as [_ P].
  split; [exact P|]. intros E. subst s. discriminate R.
Qed.

Lemma marshal_ident (tbl : N -> bool) (x : string) :
  requiresEscaping x = false ->
  marshal tbl (Var x) = ok (x ++ nl) /\ TrimSpace (x ++ nl) = x.
Proof.
  intros R. destruct (ident_plain x R) as [P N]. split.
  - apply (marshal_wrapped tbl (Var x) "Var" x P). reflexivity.
  - apply (TrimSpace_ident x (ident_all_bytes x R) N).
Qed.

Lemma marshal_idents (tbl : N -> bool) (xs : list string) :
  Forall (fun x => requiresEscaping x = false) xs ->
  Forall2 (fun e r => marshal tbl e = ok r)
    (map Var xs) (map (fun x => x ++ nl) xs)
  /\ map TrimSpace (map (fun x => x ++ nl) xs) = xs
  /\ plain (Join xs "+") = true.
Proof.
  intros H. split; [|split].
  - induction H as [|x xs Rx _ IH]; constructor; [|exact IH].
    apply (marshal_ident tbl x Rx).
  - induction H as [|x xs Rx _ IH]; [reflexivity|].
    cbn [map]. rewrite IH. f_equal. apply (marshal_ident tbl x Rx).
  - apply plain_Join; [|reflexivity].
    induction H as [|x xs Rx _ IH]; constructor; [|exact IH].
    apply (ident_plain x Rx).
Qed.

(** X11: operands that are identifiers come out bare: a [Sum] of such
    [Var]s renders as the names joined by plus signs, an [Index] as the
    name with the other name in brackets, a [Member] as the name with the
    field in quotes and brackets; the newline that [Encode] puts behind
    every operand is trimmed away inside and added once at the end. *)
Theorem identifiers_compose (tbl : N -> bool) (xs : list string)
        (a b f : string) :
  Forall (fun x => requiresEscaping x = false) xs ->
  requiresEscaping a = false ->
  requiresEscaping b = false ->
  requiresEscaping f = false ->
  marshal tbl (Sum (Some (map Var xs))) = ok (Join xs "+" ++ nl)
  /\ marshal tbl (Index (Var a) (Var b)) = ok ((a ++ "[" ++ b ++ "]") ++ nl)
  /\ marshal tbl (Member (Var a) f)
     = ok ((a ++ "[" ++ String dquote (f ++ str1 dquote) ++ "]") ++ nl).
Proof.
  intros Hxs Ra Rb Rf.
  destruct (marshal_ident tbl a Ra) as [Ma Ta].
  destruct (marshal_ident tbl b Rb) as [Mb Tb].
  destruct (ident_plain a Ra) as [Pa _]. destruct (ident_plain b Rb) as [Pb _].
  destruct (ident_plain f Rf) as [Pf _].
  split; [|split].
  - destruct (marshal_idents tbl xs Hxs) as (F2 & T & P).
    apply (marshal_wrapped tbl (Sum (Some (map Var xs))) "Sum" _ P).
    cbn [encode]. change (marshal_with (encode tbl)) with (marshal tbl).
    now rewrite (Sum_MarshalJSON_ok (marshal tbl) _ _ F2 tbl), T.
  - apply (marshal_wrapped tbl (Index (Var a) (Var b)) "Index").
    + now rewrite !plain_app, Pa, Pb.
    + assert (E : Index_MarshalJSON tbl (marshal tbl) (Var a) (Var b)
                  = ok (wrap tbl (TrimSpace (a ++ nl) ++ "["
                                    ++ TrimSpace (b ++ nl) ++ "]")))
        by (unfold Index_MarshalJSON; now rewrite Ma, Mb).
      rewrite Ta, Tb in E.
      cbn [encode]. change (marshal_with (encode tbl)) with (marshal tbl).
      now rewrite E.
  - apply (marshal_wrapped tbl (Member (Var a) f) "Member").
    + change (String dquote (f ++ str1 dquote))
        with (str1 dquote ++ f ++ str1 dquote).
      now rewrite !plain_app, Pa, Pf.
    + assert (E : Member_MarshalJSON tbl (marshal tbl) (Var a) f
                  = ok (wrap tbl (TrimSpace (a ++ nl) ++ "["
                                    ++ quoted tbl f ++ "]")))
        by (unfold Member_MarshalJSON; now rewrite Ma).
      rewrite Ta, (quoted_ident tbl f Rf) in E.
      cbn [encode]. change (marshal_with (encode tbl)) with (marshal tbl).
      now rewrite E.
Qed.

Lemma identifiers_compose_witness :
  Forall (fun x => requiresEscaping x = false) ["a"; "b_1"; "Then"]
  /\ marshal no_table (Sum (Some (map Var ["a"; "b_1"; "Then"])))
     = ok ("a+b_1+Then" ++ nl).
Proof.
  assert (H : Forall (fun x => requiresEscaping x = false) ["a"; "b_1"; "Then"])
    by (repeat constructor).
  split; [exact H|].
  apply (identifiers_compose no_table ["a"; "b_1"; "Then"] "a" "b" "c" H
           eq_refl eq_refl eq_refl).
Defined.

(** ** A Go string that carries the markers *)

Lemma enc_escape_good : good_escape enc_escape.
Proof.
  intros c H. each_byte c H;
    (split; [intros t; reflexivity
            | split; [intros t; reflexivity
                     | split; [intros prev t; reflexivity | reflexivity]]]).
Qed.

Lemma string_loop_byte (c : ascii) (t : string) :
  plain_byte c = true ->
  json.string_loop (String c t) 0 true
  = enc_escape c ++ json.string_loop t 0 true.
Proof. intros H. each_byte c H; reflexivity. Qed.

Lemma string_loop_plain (s t : string) :
  plain s = true ->
  json.string_loop (s ++ t) 0 true
  = esc_map enc_escape s ++ json.string_loop t 0 true.
Proof.
  induction s as [|c s IH]; intros Hs; [reflexivity|].
  rewrite plain_cons in Hs. apply andb_prop in Hs as [Hc Hs].
  cbn [append esc_map]. rewrite (string_loop_byte c _ Hc), (IH Hs).
  now rewrite sapp_assoc.
Qed.

Lemma encode_string_marked (x : string) :
  plain x = true ->
  json.encode_string (jsonnetEscapeOpen ++ x ++ jsonnetEscapeClose)
  = expr_open ++ esc_map enc_escape x ++ expr_close.
Proof.
  intros Hx. unfold json.encode_string, expr_open. cbn [append]. f_equal.
  rewrite (string_loop_plain jsonnetEscapeOpen _ eq_refl).
  rewrite (string_loop_plain x _ Hx).
  change (esc_map enc_escape jsonnetEscapeOpen) with jsonnetEscapeOpen.
  rewrite !sapp_assoc. f_equal.
Qed.

(** X12: the markers are not reserved for the expression nodes.  A Go
    string that starts with the open marker and ends with the close marker
    is encoded to the same kind of literal that [wrap] writes, so [unwrap]
    takes the quotes and the markers off: the string renders as the text
    between the markers, exactly as a [Var] of that text does. *)
Theorem GoString_with_markers (tbl : N -> bool) (x : string) :
  plain x = true ->
  marshal tbl (GoString (jsonnetEscapeOpen ++ x ++ jsonnetEscapeClose))
  = ok (x ++ nl)
  /\ marshal tbl (GoString (jsonnetEscapeOpen ++ x ++ jsonnetEscapeClose))
     = marshal tbl (Var x).
Proof.
  intros Hx.
  assert (E : marshal tbl (GoString (jsonnetEscapeOpen ++ x ++ jsonnetEscapeClose))
              = ok (x ++ nl)).
  { unfold marshal, marshal_with. cbn [encode]. unfold ok at 1.
    rewrite (encode_string_marked x Hx), !sapp_assoc.
    assert (U := unwrap_literal enc_escape enc_escape_good "" x
                   (str1 newline) eq_refl Hx).
    cbn [append] in U. rewrite U, unwrap_newline. reflexivity. }
  split; [exact E|].
  rewrite E. symmetry.
  apply (marshal_wrapped tbl (Var x) "Var" x Hx). reflexivity.
Qed.

Lemma GoString_with_markers_witness :
  plain "std.extVar(1) < 2" = true
  /\ marshal no_table (GoString "%%%jsonnet std.extVar(1) < 2 tennojs%%%")
     = ok ("std.extVar(1) < 2" ++ nl).
Proof.
  split; [reflexivity|].
  apply (GoString_with_markers no_table "std.extVar(1) < 2"). reflexivity.
Defined.

(** ** A struct of expressions *)

Lemma starts_with_before_byte (d : ascii) (p u t : string) :
  all_bytes (fun c => negb (Ascii.eqb c d)) p = true ->
  starts_with p (u ++ String d t) = starts_with p u.
Proof.
  revert u; induction p as [|a p IH]; intros u Hp; [reflexivity|].
  cbn [all_bytes] in Hp. apply andb_prop in Hp as [Ha Hp].
  destruct u as [|c u]; cbn [append starts_with].
  - apply negb_true_iff in Ha. now rewrite Ha.
  - now rewrite (IH u Hp).
Qed.

Lemma occurs_colon_suffix (s : string) :
  occurs expr_open (s ++ ": ") = occurs expr_open s.
Proof.
  induction s as [|c s IH]; [reflexivity|].
  cbn [append occurs]. rewrite IH. f_equal.
  apply (starts_with_before_byte ":" expr_open (String c s) " " eq_refl).
Qed.

Lemma occurs_quote_free_prefix (a s : string) :
  all_bytes not_quote a = true ->
  occurs expr_open (a ++ s) = occurs expr_open s.
Proof.
  induction a as [|c a IH]; intros Ha; [reflexivity|].
  cbn [all_bytes] in Ha. apply andb_prop in Ha as [Hc Ha].
  cbn [append occurs]. rewrite (IH Ha).
  unfold expr_open at 1. cbn [starts_with].
  unfold not_quote in Hc. apply negb_true_iff in Hc.
  now rewrite Ascii.eqb_sym, Hc.
Qed.

Lemma field_prefix (a : string) (kx : string * string) :
  all_bytes not_quote a = true ->
  field_ok kx = true ->
  occurs expr_open (a ++ json.encode_string (fst kx) ++ ": ") = false
  /\ plain (snd kx) = true.
Proof.
  intros Ha Hk. unfold field_ok in Hk. apply andb_prop in Hk as [Hk Hx].
  apply negb_true_iff in Hk.
  now rewrite (occurs_quote_free_prefix a _ Ha), occurs_colon_suffix.
Qed.

(** [unwrap] on the members of such a struct as the encoder lays them
    out, between a text [a] without quotes and a text [tail]. *)
Lemma unwrap_fields (sep tail tail' : string) :
  all_bytes not_quote sep = true ->
  unwrap tail = ok tail' ->
  forall kxs a,
    kxs <> [] ->
    forallb field_ok kxs = true ->
    all_bytes not_quote a = true ->
    unwrap (a ++ Join (map wrapped_line kxs) sep ++ tail)
    = ok (a ++ Join (map field_line kxs) sep ++ tail').
Proof.
  intros Hsep Htail. induction kxs as [|kx rest IH]; intros a Hne Hok Ha;
    [contradiction|].
  cbn [forallb] in Hok. apply andb_prop in Hok as [Hkx Hrest].
  destruct (field_prefix a kx Ha Hkx) as [Hpre Hx].
  destruct rest as [|kx2 rest].
  - cbn [map Join]. unfold wrapped_line, field_line.
    replace (a ++ (json.encode_string (fst kx) ++ ": "
                     ++ expr_open ++ esc_map json_escape (snd kx) ++ expr_close)
               ++ tail)
      with ((a ++ json.encode_string (fst kx) ++ ": ")
              ++ expr_open ++ esc_map json_escape (snd kx) ++ expr_close ++ tail)
      by (rewrite !sapp_assoc; reflexivity).
    rewrite (unwrap_literal json_escape json_escape_good _ _ tail Hpre Hx), Htail.
    unfold ok. now rewrite !sapp_assoc.
  - change (Join (map wrapped_line (kx :: kx2 :: rest)) sep)
      with (wrapped_line kx ++ sep ++ Join (map wrapped_line (kx2 :: rest)) sep).
    change (Join (map field_line (kx :: kx2 :: rest)) sep)
      with (field_line kx ++ sep ++ Join (map field_line (kx2 :: rest)) sep).
    unfold wrapped_line at 1, field_line at 1.
    replace (a ++ ((json.encode_string (fst kx) ++ ": "
                      ++ expr_open ++ esc_map json_escape (snd kx) ++ expr_close)
                     ++ sep ++ Join (map wrapped_line (kx2 :: rest)) sep)
               ++ tail)
      with ((a ++ json.encode_string (fst kx) ++ ": ")
              ++ expr_open ++ esc_map json_escape (snd kx) ++ expr_close
              ++ (sep ++ Join (map wrapped_line (kx2 :: rest)) sep ++ tail))
      by (rewrite !sapp_assoc; reflexivity).
    rewrite (unwrap_literal json_escape json_escape_good _ _ _ Hpre Hx).
    rewrite (IH sep (fun E => nil_cons (eq_sym E)) Hrest Hsep).
    unfold ok. now rewrite !sapp_assoc.
Qed.

Lemma encode_Var (tbl : N -> bool) (x : string) (d : nat) :
  plain x = true ->
  encode tbl (Var x) d = ok (expr_open ++ esc_map json_escape x ++ expr_close).
Proof.
  intros Hx. cbn [encode]. unfold Var_MarshalJSON, marshalerEncoder, ok at 1.
  now rewrite (compact_wrapped tbl x Hx).
Qed.

Lemma encode_expr_struct (tbl : N -> bool) (kx : string * string)
      (kxs : list (string * string)) :
  forallb field_ok (kx :: kxs) = true ->
  encode tbl (GoStruct (map expr_field (kx :: kxs))) 0
  = ok ("{" ++ indent 1
          ++ Join (map wrapped_line (kx :: kxs)) ("," ++ indent 1)
          ++ indent 0 ++ "}").
Proof.
  intros Hok. cbn [forallb] in Hok. apply andb_prop in Hok as [Hkx Hrest].
  cbn [map]. cbn [encode].
  match goal with |- context [?m (map expr_field kxs)] => set (members := m) end.
  assert (Hm : forall l, forallb field_ok l = true ->
                 members (map expr_field l) = (map wrapped_line l, None)).
  { induction l as [|y l IHl]; intros Hl; [reflexivity|].
    cbn [forallb] in Hl. apply andb_prop in Hl as [Hy Hl].
    unfold field_ok in Hy. apply andb_prop in Hy as [_ Hy].
    cbn [map]. unfold members. cbn [expr_field]. fold members.
    rewrite (encode_Var tbl (snd y) 1 Hy), (IHl Hl). reflexivity. }
  rewrite (Hm kxs Hrest).
  unfold field_ok in Hkx. apply andb_prop in Hkx as [_ Hx].
  cbn [expr_field]. rewrite (encode_Var tbl (snd kx) 1 Hx). reflexivity.
Qed.

(** X13: a struct whose fields are all [Var]s renders as the object the
    encoder lays out, one member on a line, indented by four spaces, with
    every expression bare behind its quoted key: each of the literals in
    the document is replaced where it stands and the keys, the commas and
    the braces are kept.  The texts are of printable ASCII bytes and the
    controls that JSON has an escape for, and no key is encoded with a
    quote followed by the open marker. *)
Theorem struct_of_expressions (tbl : N -> bool) (kxs : list (string * string)) :
  kxs <> [] ->
  forallb field_ok kxs = true ->
  marshal tbl (GoStruct (map expr_field kxs))
  = ok ("{" ++ indent 1
          ++ Join (map field_line kxs) ("," ++ indent 1)
          ++ indent 0 ++ "}" ++ nl).
Proof.
  intros Hne Hok. unfold marshal, marshal_with.
  destruct kxs as [|kx kxs]; [contradiction|].
  rewrite (encode_expr_struct tbl kx kxs Hok). unfold ok at 1.
  replace (("{" ++ indent 1
              ++ Join (map wrapped_line (kx :: kxs)) ("," ++ indent 1)
              ++ indent 0 ++ "}") ++ str1 newline)
    with (("{" ++ indent 1)
            ++ Join (map wrapped_line (kx :: kxs)) ("," ++ indent 1)
            ++ (indent 0 ++ "}" ++ str1 newline))
    by (rewrite !sapp_assoc; reflexivity).
  rewrite (unwrap_fields ("," ++ indent 1) (indent 0 ++ "}" ++ str1 newline)
             (indent 0 ++ "}" ++ str1 newline) eq_refl eq_refl
             (kx :: kxs) ("{" ++ indent 1) Hne Hok eq_refl).
  now rewrite !sapp_assoc.
Qed.

Lemma struct_of_expressions_witness :
  forallb field_ok [("a", "1 + 2"); ("b c", lit "std.join('', ['x', 'y'])")]
  = true
  /\ marshal no_table
       (GoStruct [("a", Var "1 + 2");
                  ("b c", Var (lit "std.join('', ['x', 'y'])"))])
     = ok (lit "{" ++ nl
             ++ lit "    'a': 1 + 2," ++ nl
             ++ lit "    'b c': std.join('', ['x', 'y'])" ++ nl
             ++ "}" ++ nl).
Proof.
  split; [reflexivity|].
  apply (struct_of_expressions no_table
           [("a", "1 + 2"); ("b c", lit "std.join('', ['x', 'y'])")]
           (fun E => nil_cons (eq_sym E)) eq_refl).
Defined.

(** ** The errors of [unwrap] *)

Lemma replace_no_marker (st : option error) (s : string) :
  occurs expr_open s = false ->
  forall pos, replace_loop exprRegexp unwrap_func s pos 0 st = (s, st).
Proof.
  induction s as [|c t IH]; intros H pos; [reflexivity|].
  cbn [occurs] in H. apply orb_false_iff in H as [H1 H2].
  cbn [replace_loop]. rewrite match_at_exprRegexp, H1, (IH H2). reflexivity.
Qed.

Lemma append_keeps_error (e : error) (x : option error) :
  exists e', multierror_Append (Some e) x = Some e'.
Proof. destruct x as [x|]; destruct e; eexists; reflexivity. Qed.

(** Once the callback has recorded an error, the loop ends with one. *)
Lemma replace_keeps_error (s : string) :
  forall pos skip e,
  exists r e',
    replace_loop exprRegexp unwrap_func s pos skip (Some e) = (r, Some e').
Proof.
  induction s as [|c t IH]; intros pos skip e; [now exists "", e|].
  cbn [replace_loop]. destruct skip as [|k]; [|apply IH].
  destruct (match_at exprRegexp (String c t) pos) as [[[|len] cap]|].
  - destruct (IH (S pos) 0 e) as (r & e' & ->). now exists (String c r), e'.
  - assert (U : exists out e1,
               unwrap_func (Some e) (take (S len) (String c t)) cap
               = (out, Some e1)).
    { unfold unwrap_func.
      destruct (json.Unmarshal (take (S len) (String c t))) as [s0 x].
      destruct (append_keeps_error e x) as [e1 ->]. eexists. eexists.
      reflexivity. }
    destruct U as (out & e1 & ->).
    destruct (IH (S pos) len e1) as (r & e2 & ->). now exists (out ++ r), e2.
  - destruct (IH (S pos) 0 e) as (r & e' & ->). now exists (String c r), e'.
Qed.

Lemma unwrap_func_bad (st : option error) (x : string) (cap : option string) :
  ascii_text x = true -> plain x = false ->
  unwrap_func st (expr_open ++ esc_map go_escape x ++ expr_close) cap
  = ("", multierror_Append st (Some bad_escape)).
Proof.
  intros Ha Hp. unfold unwrap_func, json.Unmarshal, json.checkValid.
  unfold expr_open at 1. cbn [append]. rewrite Ascii.eqb_refl.
  rewrite (scan_wrapped_bad x expr_close Ha Hp). reflexivity.
Qed.

Lemma replace_bad_literal (tbl : N -> bool) (st : option error)
      (pre x rest : string) :
  occurs expr_open pre = false ->
  ascii_text x = true -> plain x = false ->
  replace_loop exprRegexp unwrap_func (pre ++ wrap tbl x ++ rest) 0 0 st
  = let '(r, st') :=
      replace_loop exprRegexp unwrap_func rest 0 0
        (multierror_Append st (Some bad_escape)) in
    (pre ++ r, st').
Proof.
  intros Hpre Ha Hp. rewrite (wrap_ascii tbl x Ha), !sapp_assoc.
  destruct (qsafe_esc_ascii x Ha "x"%char jsonnetEscapeClose) as [prev' Hq].
  assert (Hq' : qsafe "x" (esc_map go_escape x ++ jsonnetEscapeClose) = true)
    by (rewrite Hq; reflexivity).
  assert (R := replace_wrapped (esc_map go_escape x) rest "" st _
                 (newline_esc_ascii x Ha) Hq'
                 (unwrap_func_bad st x (Some (esc_map go_escape x)) Ha Hp)).
  unfold expr_open at 1. cbn [append].
  rewrite (replace_before_quote pre _ st Hpre 0).
  change (String dquote
            (jsonnetEscapeOpen ++ esc_map go_escape x ++ expr_close ++ rest))
    with (expr_open ++ esc_map go_escape x ++ expr_close ++ rest).
  rewrite R.
  now destruct (replace_loop exprRegexp unwrap_func rest 0 0
                  (multierror_Append st (Some bad_escape))).
Qed.

(** X14: a literal in the document that is no JSON makes [unwrap] return
    an error and no text, whatever stands behind it; the error is the
    decoder's when nothing else is to be replaced, and the errors of two
    such literals are both kept, in a [multierror]. *)
Theorem unwrap_collects_errors (tbl : N -> bool) (pre x rest : string) :
  occurs expr_open pre = false ->
  ascii_text x = true -> plain x = false ->
  (exists err, unwrap (pre ++ wrap tbl x ++ rest) = fail err)
  /\ (occurs expr_open rest = false ->
      unwrap (pre ++ wrap tbl x ++ rest) = fail bad_escape)
  /\ (forall y, ascii_text y = true -> plain y = false ->
        unwrap (pre ++ wrap tbl x ++ wrap tbl y)
        = fail (MultiError [bad_escape; bad_escape])).
Proof.
  intros Hpre Ha Hp. split; [|split].
  - unfold unwrap, ReplaceAllFunc.
    rewrite (replace_bad_literal tbl None pre x rest Hpre Ha Hp).
    cbn [multierror_Append].
    destruct (replace_keeps_error rest 0 0 bad_escape) as (r & e' & ->).
    now exists e'.
  - intros Hrest. unfold unwrap, ReplaceAllFunc.
    rewrite (replace_bad_literal tbl None pre x rest Hpre Ha Hp).
    cbn [multierror_Append].
    now rewrite (replace_no_marker (Some bad_escape) rest Hrest 0).
  - intros y Hay Hpy. unfold unwrap, ReplaceAllFunc.
    rewrite (replace_bad_literal tbl None pre x _ Hpre Ha Hp).
    cbn [multierror_Append].
    assert (R := replace_bad_literal tbl (Some bad_escape) "" y "" eq_refl Hay Hpy).
    cbn [append] in R. rewrite sapp_nil_r in R. rewrite R. reflexivity.
Qed.

Lemma unwrap_collects_errors_witness :
  occurs expr_open (lit "['a', ") = false
  /\ ascii_text bell = true
  /\ plain bell = false
  /\ unwrap (lit "['a', " ++ wrap no_table bell ++ lit ", 'b']")
     = fail bad_escape.
Proof.
  split; [reflexivity|]. split; [reflexivity|]. split; [reflexivity|].
  apply (unwrap_collects_errors no_table (lit "['a', ") bell (lit ", 'b']"));
    reflexivity.
Defined.
